(** * objstore: the per-node coordination engine

    A shallow embedding of [objstore.go] (the store: sync engine, write
    path, read path, announce entry points) and of [storage/remote.go]
    (the S3 listing loop), with the properties of the design document
    stated and settled against it.

    Go maps are [gmap]s, slices are lists, [int64] values are [Z] (they
    are only compared or passed on, never computed with), pointers to
    records are the records themselves, and every interface the store
    consumes is a type class whose methods thread the collaborator's state
    explicitly.  The Go packages [journal], [cluster] and [storage] are
    modules of the same names. *)

From Stdlib Require Import ZArith String List Lia Bool.
From stdpp Require Import base option list gmap strings fin_maps.

Local Open Scope string_scope.
Local Open Scope list_scope.
Local Open Scope Z_scope.

(** ** Errors *)

(** Go [error] values; [nil] is [None] in an [option error]. *)
Inductive error : Type :=
| ErrNotFound                              (* objstore.ErrNotFound *)
| ForEachStop                              (* journal.ForEachStop *)
| Errorf (msg : string)                    (* errors.New, fmt.Errorf *)
| Wrapf (msg : string) (cause : error).    (* fmt.Errorf("...: %v", err) *)

(** ** Package journal *)

Module journal.

(** [journal.ConsistencyLevel] is an integer type: [Check] returns its
    literal [0]. *)
Abbreviation ConsistencyLevel := Z.

(** The three constants of the type are declared outside the files at
    hand; they are taken as parameters.  Go rejects a [switch] that lists
    one integer constant twice, so they are pairwise distinct. *)
Class Consts := {
  ConsistencyLocal : ConsistencyLevel;
  ConsistencyS3 : ConsistencyLevel;
  ConsistencyFull : ConsistencyLevel;
  consts_distinct :
    ConsistencyLocal ≠ ConsistencyS3 ∧
    ConsistencyLocal ≠ ConsistencyFull ∧
    ConsistencyS3 ≠ ConsistencyFull
}.

Record FileMeta : Type := mkFileMeta {
  ID : string;
  Name : string;
  Size : Z;
  Timestamp : Z;
  Consistency : ConsistencyLevel;
  IsSymlink : bool;
  IsDeleted : bool
}.

Abbreviation FileMetaList := (list FileMeta).

(** [meta.IsSymlink = v] *)
Definition setIsSymlink (v : bool) (m : FileMeta) : FileMeta :=
  {| ID := ID m; Name := Name m; Size := Size m; Timestamp := Timestamp m;
     Consistency := Consistency m; IsSymlink := v; IsDeleted := IsDeleted m |}.

(** Modelled from the spec: a [journal.Journal] (the package is not among
    the files at hand) is "an ordered mapping id → FileMeta" with unique
    ids.  Journal ids ([journal.ID]) are strings. *)
Abbreviation Journal := (gmap string FileMeta).

(** Modelled from the spec: journal mutations can fail ("JournalError —
    mutation failed mid-sync or mid-write").  Which ones do is the
    environment's choice, taken as a parameter: the message of the
    failure, if any, of [Set] and of [Delete] of an id in the journal of a
    given owner. *)
Class Faults := {
  setFault : string → string → option string;
  deleteFault : string → string → option string
}.

(** Modelled from the spec: [Journal.Get(id)], [nil] when absent. *)
Definition Journal_Get (j : Journal) (id : string) : option FileMeta := j !! id.

(** Modelled from the spec: [Journal.Set(id, meta)] of the journal owned
    by [jid]; a failed mutation leaves the journal as it was. *)
Definition Journal_Set `{Faults} (jid : string) (j : Journal) (id : string)
  (meta : FileMeta) : Journal * option error :=
  match setFault jid id with
  | Some msg => (j, Some (Errorf msg))
  | None => (<[id := meta]> j, None)
  end.

(** Modelled from the spec: [Journal.Delete(id)]. *)
Definition Journal_Delete `{Faults} (jid : string) (j : Journal) (id : string)
  : Journal * option error :=
  match deleteFault jid id with
  | Some msg => (j, Some (Errorf msg))
  | None => (delete id j, None)
  end.

(** Modelled from the spec: the [JournalManager] "manages a set of
    journals keyed by owning NodeID". *)
Abbreviation JournalManager := (gmap string (gmap string FileMeta)).

(** A [journal.JournalIter] closure.  [S] is the state of the variables
    the closure captures; the first argument is [j.ID()]. *)
Definition JournalIter (S : Type) : Type :=
  string → Journal → S → S * Journal * option error.

(** The journals in iteration order. *)
Definition iteration (jm : JournalManager) : list (string * Journal) :=
  map_to_list jm.

Fixpoint forEachFrom {S : Type} (fn : JournalIter S)
  (l : list (string * Journal)) (st : S) : S * option error :=
  match l with
  | [] => (st, None)
  | (jid, j) :: rest =>
      match fn jid j st with
      | (st', _, None) => forEachFrom fn rest st'
      | (st', _, Some ForEachStop) => (st', None)
      | (st', _, Some e) => (st', Some e)
      end
  end.

(** Modelled from the spec: [JournalManager.ForEach(visitor)] visits the
    journals in iteration order, read-only; [ForEachStop] ends the scan
    without error, any other error of the visitor is returned. *)
Definition ForEach {S : Type} (jm : JournalManager) (fn : JournalIter S)
  (st : S) : S * option error :=
  forEachFrom fn (iteration jm) st.

Fixpoint forEachUpdateFrom {S : Type} (fn : JournalIter S)
  (l : list (string * Journal)) (st : S)
  : S * list (string * Journal) * option error :=
  match l with
  | [] => (st, [], None)
  | (jid, j) :: rest =>
      match fn jid j st with
      | (st', j', None) =>
          let '(st'', rest', err) := forEachUpdateFrom fn rest st' in
          (st'', (jid, j') :: rest', err)
      | (st', j', Some ForEachStop) => (st', (jid, j') :: rest, None)
      | (st', _, Some e) => (st', (jid, j) :: rest, Some e)
      end
  end.

(** Modelled from the spec: [JournalManager.ForEachUpdate(mutator)] runs
    the mutator on every journal "in a single journal mutation": the
    mutated journals are stored when the mutator never failed, and none is
    when it did. *)
Definition ForEachUpdate {S : Type} (jm : JournalManager) (fn : JournalIter S)
  (st : S) : S * JournalManager * option error :=
  match forEachUpdateFrom fn (iteration jm) st with
  | (st', l', None) => (st', list_to_map l', None)
  | (st', _, Some e) => (st', jm, Some e)
  end.

(** Modelled from the spec: [JournalManager.Update(ownerID, mutator)] runs
    the mutator on the journal of [ownerID] and stores the result; it
    fails when there is no such journal or when the mutator fails. *)
Definition Update {S : Type} (jm : JournalManager) (jid : string)
  (fn : JournalIter S) (st : S) : S * JournalManager * option error :=
  match jm !! jid with
  | None => (st, jm, Some (Errorf "journal: not found"))
  | Some j =>
      match fn jid j st with
      | (st', j', None) | (st', j', Some ForEachStop) =>
          (st', <[jid := j']> jm, None)
      | (st', _, Some e) => (st', jm, Some e)
      end
  end.

(** Modelled from the spec: [JournalManager.ExportAll()] is the "union of
    all known journals as a flat list". *)
Definition ExportAll (jm : JournalManager) : FileMetaList + error :=
  inl (concat (map (λ kj : string * Journal, (map_to_list kj.2).*2) (iteration jm))).


End journal.

(** ** Package cluster *)

Module cluster.

Inductive EventType : Type :=
| EventFileAdded
| EventFileDeleted
| EventOpaqueData
| EventStopAnnounce.

Global Instance EventType_eq_dec : EqDecision EventType.
Proof. solve_decision. Defined.

Record EventAnnounce : Type := mkEventAnnounce {
  Type_ : EventType;
  FileMeta : option journal.FileMeta;
  OpaqueData : list Byte.byte
}.

Record NodeInfo : Type := mkNodeInfo { ID : string }.

(** The [ClusterManager] interface, as far as [sync] consumes it.  The
    membership view and the peers' answers are read from the manager's
    state [C]. *)
Class ClusterManager (C : Type) := {
  ListNodes : C → list NodeInfo + error;
  Sync : C → string → journal.FileMetaList
         → (journal.FileMetaList * journal.FileMetaList) + error
}.

End cluster.

(** ** Package storage *)

Module storage.

(** The [LocalStorage] interface, as far as the store consumes it.  A
    stream ([io.Reader], [io.ReadCloser]) is the list of its bytes. *)
Class LocalStorage (L : Type) := {
  (* Write(id, r) (int64, error) *)
  Write : L → string → list Byte.byte → L * Z * option error;
  (* Read(id) (io.ReadCloser, error) *)
  Read : L → string → list Byte.byte + error;
  (* Remove(id) error *)
  Remove : L → string → L * option error
}.

(** The [RemoteStorage] interface, as [objstore.go] consumes it. *)
Class RemoteStorage (R : Type) := {
  (* UploadObject(prefix, key, r) (_, error) *)
  UploadObject : R → string → string → list Byte.byte → R * option error
}.

(** *** remote.go: the S3 client and [ListObjects] *)

(** [s3.ListObjectsV2Input], the fields [ListObjects] sets.  A [*string]
    is an [option string]. *)
Record ListObjectsV2Input : Type := mkInput {
  in_Bucket : option string;
  in_Prefix : option string;
  in_StartAfter : option string;
  in_MaxKeys : option Z;
  in_ContinuationToken : option string
}.

(** [s3.Object], the fields [ListObjects] reads. *)
Record Object : Type := mkObject {
  obj_Key : option string;
  obj_ETag : option string;
  obj_LastModified : option Z;
  obj_Size : option Z
}.

(** [s3.ListObjectsV2Output].  The SDK's page carries both the token the
    request was made with ([ContinuationToken]) and the token of the next
    page ([NextContinuationToken]). *)
Record ListObjectsV2Output : Type := mkOutput {
  Contents : list Object;
  ContinuationToken : option string;
  NextContinuationToken : option string;
  IsTruncated : option bool
}.

Record Spec : Type := mkSpec {
  Path : string;
  Key : string;
  Body : option (list Byte.byte);
  ETag : string;
  Version : string;
  UpdatedAt : Z;
  Meta : gmap string string;
  Size : Z
}.

Record s3Storage : Type := mkS3Storage { bucket : string }.

(** [aws.StringValue], [aws.Int64Value], [aws.TimeValue]: the zero value
    for a nil pointer. *)
Definition StringValue (v : option string) : string := default "" v.
Definition Int64Value (v : option Z) : Z := default 0 v.
Definition TimeValue (v : option Z) : Z := default 0 v.

Definition fullPath (bucket key : string) : string :=
  String.append "s3://" (String.append bucket (String.append "/" key)).

Definition awsStringMaybe (v : list string) : option string :=
  match v with
  | x :: _ => Some x
  | [] => None
  end.

(** The [Spec] appended for one object of a page. *)
Definition specOf (s : s3Storage) (obj : Object) : Spec :=
  let key := StringValue (obj_Key obj) in
  {| Path := fullPath (bucket s) key;
     Key := key;
     Body := None;
     ETag := StringValue (obj_ETag obj);
     Version := "";
     UpdatedAt := TimeValue (obj_LastModified obj);
     Meta := ∅;
     Size := Int64Value (obj_Size obj) |}.

(** The request [ListObjects] builds in each round of its loop. *)
Definition listInput (s : s3Storage) (prefix : string) (startAfter : list string)
  (token : option string) : ListObjectsV2Input :=
  {| in_Bucket := Some (bucket s);
     in_Prefix := Some prefix;
     in_StartAfter := awsStringMaybe startAfter;
     in_MaxKeys := Some 100;
     in_ContinuationToken := token |}.

(** How a call of [ListObjects] ends.  [Pending] is a call whose last
    request the provider has not answered (the script of answers ran out). *)
Inductive listing : Type :=
| Returned (specs : list Spec)       (* return specs, nil *)
| Failed (err : error)               (* return nil, err *)
| Panicked                           (* *list.IsTruncated on a nil pointer *)
| Pending.

(** The loop of [ListObjects] against a provider that gives the answers of
    [script], one per call of [ListObjectsV2].  The result holds the
    requests sent, in order. *)
Fixpoint listLoop (s : s3Storage) (prefix : string) (startAfter : list string)
  (token : option string) (specs : list Spec)
  (script : list (ListObjectsV2Output + error))
  : list ListObjectsV2Input * listing :=
  let input := listInput s prefix startAfter token in
  match script with
  | [] => ([input], Pending)
  | inr err :: _ => ([input], Failed err)
  | inl list :: script' =>
      let specs := specs ++ map (specOf s) (Contents list) in
      let token := ContinuationToken list in
      match IsTruncated list with
      | None => ([input], Panicked)
      | Some false => ([input], Returned specs)
      | Some true =>
          match token with
          | None => ([input], Returned specs)
          | Some _ =>
              let '(inputs, res) := listLoop s prefix startAfter token specs script' in
              (input :: inputs, res)
          end
      end
  end.

Definition ListObjects (s : s3Storage) (prefix : string) (startAfter : list string)
  (script : list (ListObjectsV2Output + error))
  : list ListObjectsV2Input * listing :=
  listLoop s prefix startAfter None [] script.

End storage.

(** ** Package objstore *)

Inductive storeState : Type :=
| storeInactiveState
| storeSyncState
| storeActiveState.

Global Instance storeState_eq_dec : EqDecision storeState.
Proof. solve_decision. Defined.

Section Store.

Context {L R C : Type}.
Context `{!storage.LocalStorage L, !storage.RemoteStorage R,
          !cluster.ClusterManager C, !journal.Consts, !journal.Faults}.

(** [ConsistencyLevel.Check] *)
Definition Check (c : journal.ConsistencyLevel)
  : journal.ConsistencyLevel * option error :=
  let level := c in
  if decide (level = journal.ConsistencyLocal ∨ level = journal.ConsistencyS3
             ∨ level = journal.ConsistencyFull)
  then (level, None)
  else (0, Some (Errorf "objstore: invalid consistency level")).

(** The store.  A pump channel is the queue of the events sent into it and
    not yet taken by the pump; locks and wait groups carry no data. *)
Record objStore : Type := mkObjStore {
  nodeID : string;
  debug : bool;
  state : storeState;
  localStorage : L;
  remoteStorage : R;
  journals : journal.JournalManager;
  cluster : C;
  outboundPump : list cluster.EventAnnounce;
  inboundPump : list cluster.EventAnnounce
}.

Definition setState (v : storeState) (o : objStore) : objStore :=
  mkObjStore (nodeID o) (debug o) v (localStorage o) (remoteStorage o)
    (journals o) (cluster o) (outboundPump o) (inboundPump o).

Definition setLocalStorage (v : L) (o : objStore) : objStore :=
  mkObjStore (nodeID o) (debug o) (state o) v (remoteStorage o)
    (journals o) (cluster o) (outboundPump o) (inboundPump o).

Definition setRemoteStorage (v : R) (o : objStore) : objStore :=
  mkObjStore (nodeID o) (debug o) (state o) (localStorage o) v
    (journals o) (cluster o) (outboundPump o) (inboundPump o).

Definition setJournals (v : journal.JournalManager) (o : objStore) : objStore :=
  mkObjStore (nodeID o) (debug o) (state o) (localStorage o) (remoteStorage o)
    v (cluster o) (outboundPump o) (inboundPump o).

Definition setOutboundPump (v : list cluster.EventAnnounce) (o : objStore) : objStore :=
  mkObjStore (nodeID o) (debug o) (state o) (localStorage o) (remoteStorage o)
    (journals o) (cluster o) v (inboundPump o).

Definition setInboundPump (v : list cluster.EventAnnounce) (o : objStore) : objStore :=
  mkObjStore (nodeID o) (debug o) (state o) (localStorage o) (remoteStorage o)
    (journals o) (cluster o) (outboundPump o) v.

Definition IsReady (o : objStore) : bool :=
  bool_decide (state o = storeActiveState).

(** [ReceiveEventAnnounce]: [o.inboundPump <- event] *)
Definition ReceiveEventAnnounce (o : objStore) (event : cluster.EventAnnounce)
  : objStore :=
  if decide (cluster.Type_ event = cluster.EventStopAnnounce) then o
  else setInboundPump (inboundPump o ++ [event]) o.

(** [EmitEventAnnounce]: [o.outboundPump <- event] *)
Definition EmitEventAnnounce (o : objStore) (event : cluster.EventAnnounce)
  : objStore :=
  if decide (cluster.Type_ event = cluster.EventStopAnnounce) then o
  else setOutboundPump (outboundPump o ++ [event]) o.

Definition fileEvent (t : cluster.EventType) (meta : journal.FileMeta)
  : cluster.EventAnnounce :=
  {| cluster.Type_ := t; cluster.FileMeta := Some meta; cluster.OpaqueData := [] |}.

(** *** The sync engine *)

(** The first loop of [sync], lines 244-252:
<<
  for _, meta := range listAdded {
      if m, ok := setAdded[meta.ID]; ok {
          if meta.Timestamp > m.Timestamp {
              setAdded[meta.ID] = meta
              continue
          }
      }
      setAdded[meta.ID] = meta
  }
>>
    The two assignments are kept apart, as the source has them. *)
Definition addedStep (setAdded : gmap string journal.FileMeta)
  (meta : journal.FileMeta) : gmap string journal.FileMeta :=
  match setAdded !! journal.ID meta with
  | Some m =>
      if journal.Timestamp meta >? journal.Timestamp m
      then <[journal.ID meta := meta]> setAdded      (* continue *)
      else <[journal.ID meta := meta]> setAdded      (* falls out of the if *)
  | None => <[journal.ID meta := meta]> setAdded
  end.

Definition mergeAdded (listAdded : journal.FileMetaList)
  : gmap string journal.FileMeta :=
  foldl addedStep ∅ listAdded.

(** The tail of one round of the second loop, lines 262-268. *)
Definition storeDeleted (setDeleted : gmap string journal.FileMeta)
  (meta : journal.FileMeta) : gmap string journal.FileMeta :=
  match setDeleted !! journal.ID meta with
  | Some m =>
      if journal.Timestamp meta >? journal.Timestamp m
      then <[journal.ID meta := meta]> setDeleted    (* continue *)
      else <[journal.ID meta := meta]> setDeleted    (* falls out of the if *)
  | None => <[journal.ID meta := meta]> setDeleted
  end.

(** One round of the second loop, lines 253-269, on the pair
    (setAdded, setDeleted):
<<
  if mAdd, ok := setAdded[meta.ID]; ok {
      if mAdd.Timestamp > meta.Timestamp {
          continue // skip this delete event
      } else {
          delete(setAdded, meta.ID)
      }
  }
>>
    and then the tail above. *)
Definition deletedStep
  (sets : gmap string journal.FileMeta * gmap string journal.FileMeta)
  (meta : journal.FileMeta)
  : gmap string journal.FileMeta * gmap string journal.FileMeta :=
  let '(setAdded, setDeleted) := sets in
  match setAdded !! journal.ID meta with
  | Some mAdd =>
      if journal.Timestamp mAdd >? journal.Timestamp meta
      then (setAdded, setDeleted)
      else (delete (journal.ID meta) setAdded, storeDeleted setDeleted meta)
  | None => (setAdded, storeDeleted setDeleted meta)
  end.

Definition mergeDeleted (setAdded : gmap string journal.FileMeta)
  (listDeleted : journal.FileMetaList)
  : gmap string journal.FileMeta * gmap string journal.FileMeta :=
  foldl deletedStep (setAdded, ∅) listDeleted.

(** Both loops, one after the other: the maps [sync] goes on with. *)
Definition merge (listAdded listDeleted : journal.FileMetaList)
  : gmap string journal.FileMeta * gmap string journal.FileMeta :=
  mergeDeleted (mergeAdded listAdded) listDeleted.

(** The records of a list that carry a given id, in list order. *)
Definition recordsFor (id : string) (l : journal.FileMetaList)
  : journal.FileMetaList :=
  filter (λ m, journal.ID m = id) l.

(** The fan-out of lines 222-239.  Every peer's answer is appended to the
    two lists; a failed peer is logged and skipped.  The goroutines append
    as they finish; here they finish in the order of [nodes].  [exported]
    is the source's [list], the export of the local journals. *)
Definition collectStep (o : objStore) (exported : journal.FileMetaList)
  (acc : journal.FileMetaList * journal.FileMetaList) (node : cluster.NodeInfo)
  : journal.FileMetaList * journal.FileMetaList :=
  let '(listAdded, listDeleted) := acc in
  if decide (cluster.ID node = nodeID o) then acc
  else
    match cluster.Sync (cluster o) (cluster.ID node) exported with
    | inr err => acc
    | inl (added, deleted) => (listAdded ++ added, listDeleted ++ deleted)
    end.

Definition collect (o : objStore) (exported : journal.FileMetaList)
  (nodes : list cluster.NodeInfo) : journal.FileMetaList * journal.FileMetaList :=
  foldl (collectStep o exported) ([], []) nodes.

(** The body of the loop inside the journal update, lines 273-300, for one
    record of setAdded.  The closure works on the store (local storage,
    inbound pump) and on the journal [j] under update; errors of [j.Set]
    and of [Remove] are logged or dropped. *)
Definition applyAdded (jid : string) (acc : objStore * journal.Journal)
  (meta : journal.FileMeta) : objStore * journal.Journal :=
  let '(o, j) := acc in
  if journal.IsDeleted meta then
    let o := setLocalStorage (storage.Remove (localStorage o) (journal.ID meta)).1 o in
    (o, (journal.Journal_Set jid j (journal.ID meta) meta).1)
  else if decide (journal.Consistency meta = journal.ConsistencyLocal
                  ∨ journal.Consistency meta = journal.ConsistencyS3) then
    let meta := journal.setIsSymlink true meta in
    (o, (journal.Journal_Set jid j (journal.ID meta) meta).1)
  else if decide (journal.Consistency meta = journal.ConsistencyFull) then
    let meta := journal.setIsSymlink true meta in
    let o := ReceiveEventAnnounce o (fileEvent cluster.EventFileAdded meta) in
    (o, (journal.Journal_Set jid j (journal.ID meta) meta).1)
  else (o, j).

(** The mutator handed to [journals.Update], lines 272-302.  A Go map is
    ranged over in an order of the runtime's choice; here in the order of
    [map_to_list]. *)
Definition syncMutator (setAdded : gmap string journal.FileMeta)
  : journal.JournalIter objStore :=
  λ jid j o,
    let '(o', j') := foldl (applyAdded jid) (o, j) (map_to_list setAdded).*2 in
    (o', j', None).

(** The announces of lines 314-328, for one record of setDeleted. *)
Definition announceDeleted (o : objStore) (meta : journal.FileMeta) : objStore :=
  if journal.IsDeleted meta
  then EmitEventAnnounce o (fileEvent cluster.EventFileDeleted meta)
  else EmitEventAnnounce o (fileEvent cluster.EventFileAdded meta).

(** How a call of [sync] ends: [closer.Fatalln] ends the process, a return
    hands back the flag and leaves the store in a new state. *)
Inductive syncResult : Type :=
| SyncFatal
| SyncReturn (synced : bool) (o : objStore).

(** [sync] *)
Definition sync (o : objStore) : syncResult :=
  match cluster.ListNodes (cluster o) with
  | inr err => SyncFatal
  | inl nodes =>
      if (length nodes <? 2)%nat then
        SyncReturn false (setState storeActiveState o)
      else
        let o := setState storeInactiveState o in
        match journal.ExportAll (journals o) with
        | inr err => SyncFatal
        | inl exported =>
            let '(listAdded, listDeleted) := collect o exported nodes in
            let '(setAdded, setDeleted) := merge listAdded listDeleted in
            match journal.Update (journals o) (nodeID o) (syncMutator setAdded) o with
            | (_, _, Some err) => SyncFatal
            | (o, jm, None) =>
                let o := setJournals jm o in
                let o := setState storeActiveState o in
                let o := foldl announceDeleted o (map_to_list setDeleted).*2 in
                SyncReturn true o
            end
        end
  end.

(** How the start-up goroutine of [NewStore] stands after at most [rounds]
    calls of [sync]:
<<
  var synced bool
  for !synced {
      synced = store.sync(10 * time.Minute)
      time.Sleep(2 * time.Second)
  }
>>
*)
Inductive startup : Type :=
| StartupFatal                        (* the process was ended *)
| StartupDone (rounds : nat) (o : objStore)   (* the loop was left *)
| StartupRetrying (o : objStore).     (* still in the loop *)

Fixpoint syncLoop (rounds : nat) (o : objStore) : startup :=
  match rounds with
  | O => StartupRetrying o
  | S n =>
      match sync o with
      | SyncFatal => StartupFatal
      | SyncReturn true o' => StartupDone 1 o'
      | SyncReturn false o' =>
          match syncLoop n o' with
          | StartupDone k o'' => StartupDone (S k) o''
          | r => r
          end
      end
  end.

(** *** The read path *)

(** The visitor of [HeadObject] and [GetObject]; the captured variable is
    [meta]. *)
Definition findMeta (id : string) : journal.JournalIter (option journal.FileMeta) :=
  λ _ j meta,
    match journal.Journal_Get j id with
    | None => (meta, j, None)
    | Some m => (Some m, j, Some ForEachStop)
    end.

(** [HeadObject] *)
Definition HeadObject (o : objStore) (id : string)
  : option journal.FileMeta * option error :=
  journal.ForEach (journals o) (findMeta id) None.

(** [GetObject]: the stream, the meta, the error. *)
Definition GetObject (o : objStore) (id : string)
  : option (list Byte.byte) * option journal.FileMeta * option error :=
  let '(meta, err) := journal.ForEach (journals o) (findMeta id) None in
  match err with
  | Some err => (None, None, Some err)
  | None =>
      match meta with
      | None => (None, None, Some ErrNotFound)
      | Some meta =>
          if journal.IsSymlink meta then (None, Some meta, Some ErrNotFound)
          else
            match storage.Read (localStorage o) id with
            | inr err => (None, Some meta, Some ErrNotFound)
            | inl f => (Some f, Some meta, None)
            end
      end
  end.

(** The first record for [id] that a scan of the journals, in iteration
    order, comes across. *)
Definition firstRecord (jm : journal.JournalManager) (id : string)
  : option journal.FileMeta :=
  head (omap (λ kj : string * journal.Journal, kj.2 !! id) (journal.iteration jm)).

(** *** The write path *)

(** The mutator of [storeLocal]; the captured variable is [journalOk]. *)
Definition storeLocalMutator (journalID : string) (meta : journal.FileMeta)
  : journal.JournalIter bool :=
  λ jid j journalOk,
    if decide (journalID = jid) then
      let '(j', err) := journal.Journal_Set jid j (journal.ID meta) meta in
      (true, j', err)
    else
      let '(j', err) := journal.Journal_Delete jid j (journal.ID meta) in
      (journalOk, j', err).

(** What the mutator makes of the journal of [jid] when the mutation does
    not fail. *)
Definition putEntry (journalID : string) (meta : journal.FileMeta)
  (jid : string) (j : journal.Journal) : journal.Journal :=
  if decide (journalID = jid) then <[journal.ID meta := meta]> j
  else delete (journal.ID meta) j.

(** The closure [storeLocal] of [PutObject]. *)
Definition storeLocal (o : objStore) (r : list Byte.byte) (meta : journal.FileMeta)
  : objStore * Z * option error :=
  let '(ls, written, err) := storage.Write (localStorage o) (journal.ID meta) r in
  let o := setLocalStorage ls o in
  match err with
  | Some err => (o, written, Some err)
  | None =>
      let journalID := nodeID o in
      let '(journalOk, jm, err) :=
        journal.ForEachUpdate (journals o) (storeLocalMutator journalID meta) false in
      let o := setJournals jm o in
      match err with
      | Some err => (o, written, Some err)
      | None =>
          if negb journalOk
          then (o, written, Some (Errorf "objstore: journal not found"))
          else (o, written, None)
      end
  end.

(** The closure [storeS3] of [PutObject]. *)
Definition storeS3 (o : objStore) (r : list Byte.byte) (meta : journal.FileMeta)
  : objStore * option error :=
  let '(rs, err) := storage.UploadObject (remoteStorage o) "" (journal.ID meta) r in
  (setRemoteStorage rs o, err).

(** [PutObject]: the store afterwards, the [int64] and the error returned.
    A Go [switch] takes the first case that matches. *)
Definition PutObject (o : objStore) (r : list Byte.byte) (meta : journal.FileMeta)
  : objStore * Z * option error :=
  if decide (journal.Consistency meta = journal.ConsistencyLocal) then
    let '(o, written, err) := storeLocal o r meta in
    match err with
    | Some err => (o, written, Some (Wrapf "objstore: local store failed" err))
    | None =>
        let o := EmitEventAnnounce o (fileEvent cluster.EventFileAdded meta) in
        (* the case ends; control leaves the switch *)
        (o, 0, None)
    end
  else if decide (journal.Consistency meta = journal.ConsistencyS3
                  ∨ journal.Consistency meta = journal.ConsistencyFull) then
    let '(o, written, err) := storeLocal o r meta in
    match err with
    | Some err => (o, written, Some (Wrapf "objstore: local store failed" err))
    | None =>
        let o := EmitEventAnnounce o (fileEvent cluster.EventFileAdded meta) in
        match storage.Read (localStorage o) (journal.ID meta) with
        | inr err => (o, written, Some (Wrapf "objstore: local store missing file" err))
        | inl f =>
            let '(o, err) := storeS3 o f meta in
            match err with
            | Some err => (o, written, Some (Wrapf "objstore: remote store failed" err))
            | None => (o, written, None)
            end
        end
    end
  else (o, 0, Some (Errorf "objstore: unknown consistency")).

End Store.

Arguments objStore : clear implicits.

(** ** Collaborators in memory

    Implementations of the consumed interfaces that keep their data in
    maps, used to run the store on concrete inputs. *)

(** Modelled from the spec: a [LocalStorage] ("[Read(id) → stream],
    [Write(id, stream) → bytesWritten], [Remove(id)]") that keeps the
    files in a map and never fails to write. *)
Global Instance memLocal : storage.LocalStorage (gmap string (list Byte.byte)) := {|
  storage.Write := λ fs id r, (<[id := r]> fs, Z.of_nat (length r), None);
  storage.Read := λ fs id,
    match fs !! id with
    | Some f => inl f
    | None => inr (Errorf "no such file")
    end;
  storage.Remove := λ fs id, (delete id fs, None)
|}.

(** Modelled from the spec: a [RemoteStorage] that keeps the uploads in a
    map. *)
Global Instance memRemote : storage.RemoteStorage (gmap string (list Byte.byte)) := {|
  storage.UploadObject := λ rs prefix key r, (<[String.append prefix key := r]> rs, None)
|}.

(** A cluster with a fixed membership whose peers give fixed answers. *)
Record fixedCluster : Type := mkFixedCluster {
  members : list cluster.NodeInfo;
  answers : string → (journal.FileMetaList * journal.FileMetaList) + error
}.

Global Instance fixedClusterManager : cluster.ClusterManager fixedCluster := {|
  cluster.ListNodes := λ c, inl (members c);
  cluster.Sync := λ c peer _, answers c peer
|}.

(** Constants for the consistency levels, and journals that never fail. *)
Global Instance testConsts : journal.Consts.
Proof. refine (journal.Build_Consts 0 1 2 _). repeat split; discriminate. Defined.

Global Instance noFaults : journal.Faults :=
  {| journal.setFault := λ _ _, None; journal.deleteFault := λ _ _, None |}.

Abbreviation memStore := (objStore (gmap string (list Byte.byte))
                                   (gmap string (list Byte.byte)) fixedCluster).

(** ** Concrete inputs *)

(** A record with the id and timestamp given and every other field zero. *)
Definition metaAt (id : string) (ts : Z) : journal.FileMeta :=
  journal.mkFileMeta id "" 0 ts 0 false false.

(** Two peers report an add of "a": first with timestamp 10, then with 5. *)
Definition staleLast : journal.FileMetaList := [metaAt "a" 10; metaAt "a" 5].

(** A cluster of one: the node "n1" alone, its own journal empty, nothing
    on disk, not yet active. *)
Definition soloStore : memStore :=
  {| nodeID := "n1"; debug := false; state := storeInactiveState;
     localStorage := ∅; remoteStorage := ∅;
     journals := {["n1" := ∅]};
     cluster := {| members := [cluster.mkNodeInfo "n1"];
                   answers := λ _, inr (Errorf "no such peer") |};
     outboundPump := []; inboundPump := [] |}.

(** The five bytes of "hello", and the meta of object "a" put with
    consistency LOCAL. *)
Definition hello : list Byte.byte := list_byte_of_string "hello".

Definition helloMeta : journal.FileMeta :=
  journal.mkFileMeta "a" "" 5 1 journal.ConsistencyLocal false false.

(** A meta whose consistency level, 7, is none of the three. *)
Definition oddMeta : journal.FileMeta :=
  journal.mkFileMeta "a" "" 5 1 7 false false.

(** A bucket, and a listing in two pages.  The first page is truncated and
    carries, as S3 pages do, the token its request was made with (none)
    next to the token of the page to come; the second page ends the
    listing. *)
Definition bucketB : storage.s3Storage := storage.mkS3Storage "b".

Definition objKey (k : string) : storage.Object :=
  storage.mkObject (Some k) None None None.


Definition pageTwo : storage.ListObjectsV2Output :=
  storage.mkOutput [objKey "k2"] (Some "t1") None (Some false).

(** A truncated page that does carry a token in [ContinuationToken]. *)
Definition pageOneToken : storage.ListObjectsV2Output :=
  storage.mkOutput [objKey "k1"] (Some "t1") None (Some true).

(** The specs of the objects of a run of pages, in order. *)
Definition specsOf (s : storage.s3Storage) (pages : list storage.ListObjectsV2Output)
  : list storage.Spec :=
  concat (map (λ p, map (storage.specOf s) (storage.Contents p)) pages).

(** After a page of the first kind the loop of [ListObjects] goes round
    again; at a page of the second kind it returns. *)
Definition goesOn (p : storage.ListObjectsV2Output) : Prop :=
  storage.IsTruncated p = Some true ∧ is_Some (storage.ContinuationToken p).


(** The requests sent for a run of pages that go on and one more request:
    the first with the starting token, each next one with the token of the
    page before. *)
Definition requestsFor (s : storage.s3Storage) (prefix : string)
  (startAfter : list string) (token : option string)
  (pages : list storage.ListObjectsV2Output) : list storage.ListObjectsV2Input :=
  map (storage.listInput s prefix startAfter)
      (token :: map storage.ContinuationToken pages).

(** ** The journal's side of a sync round *)

Section RoundViews.

Context {L R C : Type}.
Context `{!storage.LocalStorage L, !storage.RemoteStorage R,
          !cluster.ClusterManager C, !journal.Consts, !journal.Faults}.

(** The record that [applyAdded] hands to [j.Set] for a record of
    setAdded, if it hands one. *)
Definition recorded (meta : journal.FileMeta) : option journal.FileMeta :=
  if journal.IsDeleted meta then Some meta
  else if decide (journal.Consistency meta = journal.ConsistencyLocal
                  ∨ journal.Consistency meta = journal.ConsistencyS3)
  then Some (journal.setIsSymlink true meta)
  else if decide (journal.Consistency meta = journal.ConsistencyFull)
  then Some (journal.setIsSymlink true meta)
  else None.

(** What [applyAdded] does to the journal under update. *)
Definition journalStep (jid : string) (j : journal.Journal)
  (meta : journal.FileMeta) : journal.Journal :=
  match recorded meta with
  | Some m => (journal.Journal_Set jid j (journal.ID m) m).1
  | None => j
  end.

(** The records of setAdded that a round of [sync] ranges over, given the
    nodes listed. *)
Definition roundAdded (o : objStore L R C) (nodes : list cluster.NodeInfo)
  : list journal.FileMeta :=
  match journal.ExportAll (journals o) with
  | inl exported =>
      (map_to_list
         (merge (collect o exported nodes).1 (collect o exported nodes).2).1).*2
  | inr _ => []
  end.

End RoundViews.

(** Two nodes: "n1", which holds nothing, and its peer "n2", which reports
    the object "b" written at 100 with consistency LOCAL as an add. *)
Definition pairStore : memStore :=
  {| nodeID := "n1"; debug := false; state := storeInactiveState;
     localStorage := ∅; remoteStorage := ∅;
     journals := {["n1" := ∅]};
     cluster := {| members := [cluster.mkNodeInfo "n1"; cluster.mkNodeInfo "n2"];
                   answers := λ _, inl ([metaAt "b" 100], []) |};
     outboundPump := []; inboundPump := [] |}.

(** The store in which a round of [sync] on [pairStore] ends. *)
Definition pairStoreSynced : memStore :=
  match sync pairStore with
  | SyncReturn _ o => o
  | SyncFatal => pairStore
  end.

(** ** More views of a sync round *)

Section RoundEffects.

Context {L R C : Type}.
Context `{!storage.LocalStorage L, !storage.RemoteStorage R,
          !cluster.ClusterManager C, !journal.Consts, !journal.Faults}.

(** The two maps a round of [sync] goes on with, given the nodes listed. *)
Definition roundSets (o : objStore L R C) (nodes : list cluster.NodeInfo)
  : gmap string journal.FileMeta * gmap string journal.FileMeta :=
  match journal.ExportAll (journals o) with
  | inl exported =>
      merge (collect o exported nodes).1 (collect o exported nodes).2
  | inr _ => (∅, ∅)
  end.

(** The records of setDeleted that the last loop of [sync] ranges over. *)
Definition roundDeleted (o : objStore L R C) (nodes : list cluster.NodeInfo)
  : list journal.FileMeta :=
  (map_to_list (roundSets o nodes).2).*2.

(** The announce the last loop of [sync] emits for a record of setDeleted. *)
Definition deletedEvent (meta : journal.FileMeta) : cluster.EventAnnounce :=
  if journal.IsDeleted meta
  then fileEvent cluster.EventFileDeleted meta
  else fileEvent cluster.EventFileAdded meta.

(** The announce [applyAdded] hands to [ReceiveEventAnnounce] for a record
    of setAdded, if it hands one. *)
Definition replicated (meta : journal.FileMeta) : option cluster.EventAnnounce :=
  if journal.IsDeleted meta then None
  else if decide (journal.Consistency meta = journal.ConsistencyLocal
                  ∨ journal.Consistency meta = journal.ConsistencyS3)
  then None
  else if decide (journal.Consistency meta = journal.ConsistencyFull)
  then Some (fileEvent cluster.EventFileAdded (journal.setIsSymlink true meta))
  else None.

(** What [applyAdded] does to the local storage. *)
Definition removeStep (ls : L) (meta : journal.FileMeta) : L :=
  if journal.IsDeleted meta then (storage.Remove ls (journal.ID meta)).1 else ls.

End RoundEffects.

(** Records for a busier round: a live add with consistency FULL, a
    tombstone reported as an add, a tombstone reported as a delete. *)
Definition fullMeta : journal.FileMeta :=
  journal.mkFileMeta "d" "" 0 10 journal.ConsistencyFull false false.

Definition goneMeta : journal.FileMeta :=
  journal.mkFileMeta "g" "" 0 20 journal.ConsistencyLocal false true.

Definition tombMeta : journal.FileMeta :=
  journal.mkFileMeta "e" "" 0 60 journal.ConsistencyLocal false true.

(** Three nodes.  "n1" keeps a journal of its own and a copy of the
    journal of "n2", and holds the file "g"; "n2" reports three adds and two
    deletes; "n3" does not answer. *)
Definition mixedStore : memStore :=
  {| nodeID := "n1"; debug := false; state := storeInactiveState;
     localStorage := {["g" := hello]}; remoteStorage := ∅;
     journals := {["n1" := ∅; "n2" := {["z" := metaAt "z" 1]}]};
     cluster := {| members := [cluster.mkNodeInfo "n1"; cluster.mkNodeInfo "n2";
                               cluster.mkNodeInfo "n3"];
                   answers := λ peer,
                     if decide (peer = "n2")
                     then inl ([metaAt "b" 100; fullMeta; goneMeta],
                               [tombMeta; metaAt "f" 5])
                     else inr (Errorf "no answer") |};
     outboundPump := []; inboundPump := [] |}.

Definition mixedNodes : list cluster.NodeInfo :=
  [cluster.mkNodeInfo "n1"; cluster.mkNodeInfo "n2"; cluster.mkNodeInfo "n3"].

Definition mixedSynced : memStore :=
  match sync mixedStore with
  | SyncReturn _ o => o
  | SyncFatal => mixedStore
  end.

(** Two nodes, the peer of "n1" not answering. *)
Definition quietStore : memStore :=
  {| nodeID := "n1"; debug := false; state := storeInactiveState;
     localStorage := ∅; remoteStorage := ∅;
     journals := {["n1" := ∅]};
     cluster := {| members := [cluster.mkNodeInfo "n1"; cluster.mkNodeInfo "n2"];
                   answers := λ _, inr (Errorf "no answer") |};
     outboundPump := []; inboundPump := [] |}.

(** ** The rest of package objstore *)

Section StoreMore.

Context {L R C : Type}.
Context `{!storage.LocalStorage L, !storage.RemoteStorage R,
          !cluster.ClusterManager C, !journal.Consts, !journal.Faults}.

Definition stopEvent : cluster.EventAnnounce :=
  {| cluster.Type_ := cluster.EventStopAnnounce; cluster.FileMeta := None;
     cluster.OpaqueData := [] |}.

(** [Close]: a stop announce is sent into the inbound pump, then one into
    the outbound pump; the error returned is nil. *)
Definition Close (o : objStore L R C) : objStore L R C * option error :=
  let o := setInboundPump (inboundPump o ++ [stopEvent]) o in
  let o := setOutboundPump (outboundPump o ++ [stopEvent]) o in
  (o, None).


(** No stop announce is queued in either pump. *)
Definition stopFree (o : objStore L R C) : Prop :=
  Forall (λ ev, cluster.Type_ ev ≠ cluster.EventStopAnnounce) (outboundPump o) ∧
  Forall (λ ev, cluster.Type_ ev ≠ cluster.EventStopAnnounce) (inboundPump o).

End StoreMore.

(** ** The rest of the consumed interfaces *)

(** [ClusterManager.GetObject(ctx, nodeID, id)]: the stream a peer gives
    for an id, or an error, [cluster.ErrNotFound] among them. *)
Class ClusterObjects (C : Type) := {
  cluster_GetObject : C → string → string → list Byte.byte + error
}.

(** [LocalStorage.CheckAccess(prefix)] and [RemoteStorage.CheckAccess(prefix)];
    the check may write, so it hands back the collaborator's state. *)
Class LocalAccess (L : Type) := {
  local_CheckAccess : L → string → L * option error
}.

Class RemoteAccess (R : Type) := {
  remote_CheckAccess : R → string → R * option error
}.

Section Entry.

Context {L R C : Type}.
Context `{!storage.LocalStorage L, !storage.RemoteStorage R,
          !cluster.ClusterManager C, !journal.Consts, !journal.Faults,
          !ClusterObjects C, !LocalAccess L, !RemoteAccess R}.

(** The goroutine body of the fan-out of [FindObject] for one node: the
    stream sent to the channel [found], if one is sent. *)
Definition askPeer (o : objStore L R C) (id : string) (node : cluster.NodeInfo)
  : option (list Byte.byte) :=
  if decide (cluster.ID node = nodeID o) then None
  else
    match cluster_GetObject (cluster o) (cluster.ID node) id with
    | inl r => Some r
    | inr _ => None
    end.

(** [FindObject].  The channel [found] hands over the stream of the
    goroutine that sends first; here the goroutines send in the order of
    the nodes. *)
Definition FindObject (o : objStore L R C) (id : string)
  : option (list Byte.byte) * option journal.FileMeta * option error :=
  let '(r, meta, err) := GetObject o id in
  match err with
  | None => (r, meta, None)
  | Some _ =>
      match meta with
      | None => (None, None, Some ErrNotFound)
      | Some meta =>
          match cluster.ListNodes (cluster o) with
          | inr err =>
              (None, None, Some (Wrapf "objstore: cannot discover nodes" err))
          | inl nodes =>
              if (length nodes <? 2)%nat then (None, None, Some ErrNotFound)
              else
                match omap (askPeer o id) nodes with
                | r :: _ => (Some r, Some meta, None)
                | [] => (None, None, Some ErrNotFound)
                end
          end
      end
  end.


End Entry.

(** The collaborators in memory pass every access check; the peers of a
    fixed cluster hold no object. *)
Global Instance memLocalAccess : LocalAccess (gmap string (list Byte.byte)) :=
  {| local_CheckAccess := λ fs _, (fs, None) |}.

Global Instance memRemoteAccess : RemoteAccess (gmap string (list Byte.byte)) :=
  {| remote_CheckAccess := λ rs _, (rs, None) |}.

(** A cluster whose peers hold objects: the membership and, per peer, the
    objects it gives. *)
Record servingCluster : Type := mkServingCluster {
  servingMembers : list cluster.NodeInfo;
  served : string → gmap string (list Byte.byte)
}.

Global Instance servingClusterManager : cluster.ClusterManager servingCluster := {|
  cluster.ListNodes := λ c, inl (servingMembers c);
  cluster.Sync := λ _ _ _, inl ([], [])
|}.

Global Instance servingClusterObjects : ClusterObjects servingCluster := {|
  cluster_GetObject := λ c peer id,
    match served c peer !! id with
    | Some r => inl r
    | None => inr ErrNotFound
    end
|}.

(** A local storage that is full, and a remote storage that is down. *)
Global Instance fullDisk : storage.LocalStorage unit := {|
  storage.Write := λ _ _ _, (tt, 0, Some (Errorf "no space left on device"));
  storage.Read := λ _ _, inr (Errorf "no such file");
  storage.Remove := λ _ _, (tt, None)
|}.

Global Instance downRemote : storage.RemoteStorage unit := {|
  storage.UploadObject := λ _ _ _ _, (tt, Some (Errorf "connection refused"))
|}.

(** The node that is alone, with the full disk; and with the remote
    storage that is down. *)
Definition fullDiskStore : objStore unit (gmap string (list Byte.byte)) fixedCluster :=
  {| nodeID := "n1"; debug := false; state := storeActiveState;
     localStorage := tt; remoteStorage := ∅;
     journals := {["n1" := ∅]};
     cluster := {| members := [cluster.mkNodeInfo "n1"];
                   answers := λ _, inr (Errorf "no such peer") |};
     outboundPump := []; inboundPump := [] |}.


(** The meta of "a" with consistency S3, and the meta of "a" put as a
    symlink. *)
Definition remoteMeta : journal.FileMeta :=
  journal.mkFileMeta "a" "" 5 1 journal.ConsistencyS3 false false.

Definition linkMeta : journal.FileMeta :=
  journal.mkFileMeta "a" "" 5 1 journal.ConsistencyLocal true false.

(** "n1" knows "b" as a symlink; its peer "n2" holds the bytes. *)
Definition linkedStore
  : objStore (gmap string (list Byte.byte)) (gmap string (list Byte.byte)) servingCluster :=
  {| nodeID := "n1"; debug := false; state := storeActiveState;
     localStorage := ∅; remoteStorage := ∅;
     journals := {["n1" := {["b" := journal.setIsSymlink true (metaAt "b" 100)]}]};
     cluster := {| servingMembers := [cluster.mkNodeInfo "n1"; cluster.mkNodeInfo "n2"];
                   served := λ peer, if decide (peer = "n2")
                                     then {["b" := hello; "q" := hello]} else ∅ |};
     outboundPump := []; inboundPump := [] |}.

(** ** remote.go: the calls for one object *)

Module remote.

(** [s3.GetObjectInput] and [s3.HeadObjectInput], the fields set. *)
Record GetObjectInput : Type := mkGetObjectInput {
  get_Key : option string;
  get_Bucket : option string;
  get_VersionId : option string
}.

Record HeadObjectInput : Type := mkHeadObjectInput {
  head_Key : option string;
  head_Bucket : option string;
  head_VersionId : option string
}.

(** [s3.GetObjectOutput] and [s3.HeadObjectOutput], the fields read. *)
Record GetObjectOutput : Type := mkGetObjectOutput {
  got_Body : list Byte.byte;
  got_ETag : option string;
  got_VersionId : option string;
  got_LastModified : option Z;
  got_ContentLength : option Z;
  got_Metadata : gmap string (option string)
}.

Record HeadObjectOutput : Type := mkHeadObjectOutput {
  headed_ETag : option string;
  headed_VersionId : option string;
  headed_LastModified : option Z;
  headed_ContentLength : option Z
}.

(** The S3 client, as far as the two calls go.  An error of the SDK is
    its text, [err.Error()]. *)
Record client : Type := mkClient {
  cli_GetObject : GetObjectInput → GetObjectOutput + string;
  cli_HeadObject : HeadObjectInput → HeadObjectOutput + string
}.

(** The errors the two calls return: [storage.ErrNotFound], or the error
    of the SDK as it came. *)
Inductive callError : Type :=
| ErrNotFound
| FromSDK (text : string).

(** [Error()] of such an error. *)
Definition errorText (e : callError) : string :=
  match e with
  | ErrNotFound => "NoSuchKey: The specified key does not exist."
  | FromSDK text => text
  end.

(** [strings.HasPrefix(s, p)] *)
Definition HasPrefix (s p : string) : bool := String.prefix p s.

Definition getInput (s : storage.s3Storage) (key : string) (version : list string)
  : GetObjectInput :=
  {| get_Key := Some key; get_Bucket := Some (storage.bucket s);
     get_VersionId := storage.awsStringMaybe version |}.

Definition headInput (s : storage.s3Storage) (key : string) (version : list string)
  : HeadObjectInput :=
  {| head_Key := Some key; head_Bucket := Some (storage.bucket s);
     head_VersionId := storage.awsStringMaybe version |}.

(** [s3Storage.GetObject] *)
Definition GetObject (s : storage.s3Storage) (cli : client) (key : string)
  (version : list string) : storage.Spec + callError :=
  match cli_GetObject cli (getInput s key version) with
  | inr err =>
      if HasPrefix err "NoSuchKey" then inr ErrNotFound else inr (FromSDK err)
  | inl obj =>
      inl {| storage.Path := storage.fullPath (storage.bucket s) key;
             storage.Key := key;
             storage.Body := Some (got_Body obj);
             storage.ETag := storage.StringValue (got_ETag obj);
             storage.Version := storage.StringValue (got_VersionId obj);
             storage.UpdatedAt := storage.TimeValue (got_LastModified obj);
             storage.Size := storage.Int64Value (got_ContentLength obj);
             storage.Meta := storage.StringValue <$> got_Metadata obj |}
  end.

(** [s3Storage.HeadObject] *)
Definition HeadObject (s : storage.s3Storage) (cli : client) (key : string)
  (version : list string) : storage.Spec + callError :=
  match cli_HeadObject cli (headInput s key version) with
  | inr err => inr (FromSDK err)
  | inl obj =>
      inl {| storage.Path := storage.fullPath (storage.bucket s) key;
             storage.Key := key;
             storage.Body := None;
             storage.ETag := storage.StringValue (headed_ETag obj);
             storage.Version := storage.StringValue (headed_VersionId obj);
             storage.UpdatedAt := storage.TimeValue (headed_LastModified obj);
             storage.Size := storage.Int64Value (headed_ContentLength obj);
             storage.Meta := ∅ |}
  end.

End remote.

(** A client that knows no key. *)
Definition emptyBucket : remote.client :=
  {| remote.cli_GetObject := λ _, inr "NoSuchKey: The specified key does not exist.";
     remote.cli_HeadObject := λ _, inr "NotFound: Not Found" |}.

(** A page whose [IsTruncated] is nil. *)
Definition pageBare : storage.ListObjectsV2Output :=
  storage.mkOutput [objKey "k3"] None None None.

(** A spec as [ListObjects] makes them: no body, no version, no metadata,
    the path that of its key in the bucket. *)
Definition listed (s : storage.s3Storage) (sp : storage.Spec) : Prop :=
  storage.Path sp = storage.fullPath (storage.bucket s) (storage.Key sp) ∧
  storage.Body sp = None ∧ storage.Version sp = "" ∧ storage.Meta sp = ∅.

(** * Properties *)

(** ** The merge loops *)

Section MergeFacts.

Implicit Types (s setAdded setDeleted : gmap string journal.FileMeta).
Implicit Types (l listAdded listDeleted : journal.FileMetaList).
Implicit Types (m meta : journal.FileMeta) (id : string).

(** Whatever the comparison of the timestamps says, the record at hand
    is stored. *)
Lemma addedStep_insert s meta :
  addedStep s meta = <[journal.ID meta := meta]> s.
Proof.
  unfold addedStep. destruct (s !! journal.ID meta) as [m|]; [|done].
  by destruct (journal.Timestamp meta >? journal.Timestamp m).
Qed.

Lemma storeDeleted_insert s meta :
  storeDeleted s meta = <[journal.ID meta := meta]> s.
Proof.
  unfold storeDeleted. destruct (s !! journal.ID meta) as [m|]; [|done].
  by destruct (journal.Timestamp meta >? journal.Timestamp m).
Qed.

Lemma recordsFor_cons id meta l :
  recordsFor id (meta :: l) =
  if decide (journal.ID meta = id) then meta :: recordsFor id l else recordsFor id l.
Proof. unfold recordsFor. by rewrite filter_cons. Qed.

Lemma recordsFor_elem id l m :
  m ∈ recordsFor id l ↔ m ∈ l ∧ journal.ID m = id.
Proof. unfold recordsFor. rewrite list_elem_of_filter. tauto. Qed.

(** The first loop leaves, for each id, the last record of the list that
    carries it. *)
Lemma foldl_addedStep_lookup l s id :
  foldl addedStep s l !! id =
  match last (recordsFor id l) with
  | Some m => Some m
  | None => s !! id
  end.
Proof.
  revert s. induction l as [|meta l IH]; intros s; [done|].
  cbn [foldl]. rewrite IH, addedStep_insert, recordsFor_cons.
  destruct (decide (journal.ID meta = id)) as [<-|Hne].
  - rewrite last_cons, lookup_insert_eq. by destruct (last _).
  - by rewrite lookup_insert_ne.
Qed.

Lemma mergeAdded_lookup l id :
  mergeAdded l !! id = last (recordsFor id l).
Proof.
  unfold mergeAdded. rewrite foldl_addedStep_lookup, lookup_empty.
  by destruct (last _).
Qed.

(** Every record sits under its own id. *)
Lemma mergeAdded_key l id m :
  mergeAdded l !! id = Some m → journal.ID m = id.
Proof.
  rewrite mergeAdded_lookup. intros Hl.
  assert (m ∈ recordsFor id l) as Hin.
  { apply last_Some in Hl as [l' ->]. set_solver. }
  by apply recordsFor_elem in Hin as [_ ?].
Qed.

(** The rule of one round of the second loop, for the record at hand: an
    add that is strictly newer makes the round skip the delete; otherwise,
    a tie included, the id leaves setAdded and the delete is stored. *)
Lemma deletedStep_rule setAdded setDeleted meta mAdd :
  setAdded !! journal.ID meta = Some mAdd →
  (journal.Timestamp mAdd > journal.Timestamp meta →
     deletedStep (setAdded, setDeleted) meta = (setAdded, setDeleted)) ∧
  (journal.Timestamp mAdd ≤ journal.Timestamp meta →
     deletedStep (setAdded, setDeleted) meta
     = (delete (journal.ID meta) setAdded, <[journal.ID meta := meta]> setDeleted)).
Proof.
  intros Hadd. unfold deletedStep. rewrite Hadd, storeDeleted_insert.
  destruct (journal.Timestamp mAdd >? journal.Timestamp meta) eqn:Hgt.
  - apply Z.gtb_lt in Hgt. split; [done|lia].
  - rewrite Z.gtb_ltb in Hgt. apply Z.ltb_ge in Hgt. split; [lia|done].
Qed.

(** A round of the second loop for another id leaves this id alone. *)
Lemma deletedStep_other setAdded setDeleted meta id :
  journal.ID meta ≠ id →
  (deletedStep (setAdded, setDeleted) meta).1 !! id = setAdded !! id ∧
  (deletedStep (setAdded, setDeleted) meta).2 !! id = setDeleted !! id.
Proof.
  intros Hne. unfold deletedStep. rewrite storeDeleted_insert.
  destruct (setAdded !! journal.ID meta) as [mAdd|]; cbn.
  - destruct (journal.Timestamp mAdd >? journal.Timestamp meta); cbn;
      by rewrite ?lookup_delete_ne, ?lookup_insert_ne.
  - by rewrite lookup_insert_ne.
Qed.

(** Once the id has left setAdded, every further delete record for it is
    stored, the last one staying. *)
Lemma foldl_deletedStep_absent l setAdded setDeleted id :
  setAdded !! id = None →
  (foldl deletedStep (setAdded, setDeleted) l).1 !! id = None ∧
  (foldl deletedStep (setAdded, setDeleted) l).2 !! id =
    match last (recordsFor id l) with
    | Some d => Some d
    | None => setDeleted !! id
    end.
Proof.
  revert setAdded setDeleted.
  induction l as [|meta l IH]; intros setAdded setDeleted Hnone; [done|].
  cbn [foldl]. rewrite recordsFor_cons.
  destruct (decide (journal.ID meta = id)) as [<-|Hne].
  - unfold deletedStep at 2 4. rewrite Hnone, storeDeleted_insert.
    destruct (IH setAdded (<[journal.ID meta := meta]> setDeleted) Hnone) as [-> ->].
    split; [done|]. rewrite last_cons, lookup_insert_eq. by destruct (last _).
  - destruct (deletedStep_other setAdded setDeleted meta id Hne) as [Ha Hd].
    destruct (deletedStep (setAdded, setDeleted) meta) as [A1 D1]; cbn in Ha, Hd.
    destruct (IH A1 D1) as [-> ->]; [congruence|]. by rewrite Hd.
Qed.



End MergeFacts.

(** C1 (the code departs from it).  The merge is to keep, per id, the
    record with the greatest timestamp.  On the list of adds "a" at 10,
    then "a" at 5, the first loop of [sync] leaves the record with
    timestamp 5 in the add map; on the same list taken as deletes the
    second loop leaves the record with timestamp 5 in the delete map.  In
    both the record at hand is stored whatever the comparison says. *)
Theorem merge_keeps_last_record :
  mergeAdded staleLast !! "a" = Some (metaAt "a" 5) ∧
  (merge [] staleLast).2 !! "a" = Some (metaAt "a" 5) ∧
  metaAt "a" 10 ∈ staleLast ∧
  journal.Timestamp (metaAt "a" 10) > journal.Timestamp (metaAt "a" 5).
Proof.
  split_and!.
  - by rewrite mergeAdded_lookup.
  - unfold merge, mergeDeleted.
    destruct (foldl_deletedStep_absent staleLast (mergeAdded []) ∅ "a") as [_ ->]; done.
  - apply list_elem_of_here.
  - reflexivity.
Qed.



(** ** The sync round and the start-up loop *)

Section SyncFacts.

Context {L R C : Type}.
Context `{!storage.LocalStorage L, !storage.RemoteStorage R,
          !cluster.ClusterManager C, !journal.Consts, !journal.Faults}.

Implicit Types (o : objStore L R C).

(** With fewer than two nodes a round sets the state and returns false. *)
Lemma sync_alone o nodes :
  cluster.ListNodes (cluster o) = inl nodes →
  (length nodes < 2)%nat →
  sync o = SyncReturn false (setState storeActiveState o).
Proof.
  intros Hnodes Hlen. unfold sync. rewrite Hnodes.
  by apply Nat.ltb_lt in Hlen as ->.
Qed.

(** The start-up loop then stays in its loop, round after round. *)
Lemma syncLoop_alone o nodes rounds :
  cluster.ListNodes (cluster o) = inl nodes →
  (length nodes < 2)%nat →
  syncLoop (S rounds) o = StartupRetrying (setState storeActiveState o).
Proof.
  revert o. induction rounds as [|n IH]; intros o Hnodes Hlen.
  - cbn. by rewrite (sync_alone o nodes).
  - change (syncLoop (S (S n)) o) with
      (match sync o with
       | SyncFatal => StartupFatal
       | SyncReturn true o' => StartupDone 1 o'
       | SyncReturn false o' =>
           match syncLoop (S n) o' with
           | StartupDone k o'' => StartupDone (S k) o''
           | r => r
           end
       end).
    rewrite (sync_alone o nodes) by done.
    by rewrite (IH (setState storeActiveState o)).
Qed.

(** C3 (as amended).  When the cluster lists fewer than two nodes, a sync
    round sets the store state to ACTIVE, so that the store is ready, and
    returns false.  The start-up loop therefore goes on: after any number
    of rounds it is still retrying, with the store ACTIVE. *)
Theorem sync_alone_keeps_retrying o nodes :
  cluster.ListNodes (cluster o) = inl nodes →
  (length nodes < 2)%nat →
  sync o = SyncReturn false (setState storeActiveState o) ∧
  IsReady (setState storeActiveState o) = true ∧
  ∀ rounds, syncLoop (S rounds) o = StartupRetrying (setState storeActiveState o).
Proof.
  intros Hnodes Hlen. split_and!.
  - by apply (sync_alone o nodes).
  - done.
  - intros rounds. by apply (syncLoop_alone o nodes).
Qed.

End SyncFacts.

Lemma sync_alone_keeps_retrying_witness :
  cluster.ListNodes (cluster soloStore) = inl [cluster.mkNodeInfo "n1"] ∧
  (length [cluster.mkNodeInfo "n1"] < 2)%nat ∧
  sync soloStore = SyncReturn false (setState storeActiveState soloStore) ∧
  syncLoop 3 soloStore = StartupRetrying (setState storeActiveState soloStore).
Proof.
  assert (cluster.ListNodes (cluster soloStore) = inl [cluster.mkNodeInfo "n1"])
    as H1 by reflexivity.
  assert (length [cluster.mkNodeInfo "n1"] < 2)%nat as H2 by (cbn; lia).
  destruct (sync_alone_keeps_retrying soloStore _ H1 H2) as (Hsync & _ & Hloop).
  split_and!; [exact H1|exact H2|exact Hsync|exact (Hloop 2%nat)].
Defined.

(** C3 as it was stated fails for the node that is alone: its round
    returns false, and no number of rounds lets the start-up loop end. *)
Lemma sync_alone_loop_never_ends :
  sync soloStore = SyncReturn false (setState storeActiveState soloStore) ∧
  ¬ ∃ rounds k o', syncLoop rounds soloStore = StartupDone k o'.
Proof.
  split; [by apply (sync_alone soloStore [cluster.mkNodeInfo "n1"]); [|cbn; lia]|].
  intros (rounds & k & o' & Hdone). destruct rounds as [|n]; [done|].
  rewrite (syncLoop_alone soloStore [cluster.mkNodeInfo "n1"]) in Hdone;
    [done|done|cbn; lia].
Qed.

(** ** The write path *)

Section WriteFacts.

Context {L R C : Type}.
Context `{!storage.LocalStorage L, !storage.RemoteStorage R,
          !cluster.ClusterManager C, !journal.Consts, !journal.Faults}.

Implicit Types (o : objStore L R C) (meta : journal.FileMeta).
Implicit Types (jm : journal.JournalManager) (j : journal.Journal).

Lemma storeLocalMutator_ok own meta jid j ok ok' j' :
  storeLocalMutator own meta jid j ok = (ok', j', None) →
  j' = putEntry own meta jid j ∧ ok' = (ok || bool_decide (own = jid)).
Proof.
  unfold storeLocalMutator, putEntry, journal.Journal_Set, journal.Journal_Delete.
  destruct (decide (own = jid)) as [Heq|Hne].
  - rewrite (bool_decide_eq_true_2 _ Heq).
    destruct (journal.setFault jid (journal.ID meta)); intros [= <- <-]; [].
    split; [done|]. by rewrite orb_true_r.
  - rewrite (bool_decide_eq_false_2 _ Hne).
    destruct (journal.deleteFault jid (journal.ID meta)); intros [= <- <-]; [].
    split; [done|]. by rewrite orb_false_r.
Qed.

Lemma storeLocalMutator_no_stop own meta jid j ok ok' j' :
  storeLocalMutator own meta jid j ok ≠ (ok', j', Some ForEachStop).
Proof.
  unfold storeLocalMutator, journal.Journal_Set, journal.Journal_Delete.
  destruct (decide (own = jid));
    [destruct (journal.setFault _ _)|destruct (journal.deleteFault _ _)];
    congruence.
Qed.

(** Rebuilding a map from its list of entries, each value changed by a
    function of its key, changes the lookups the same way. *)
Lemma list_to_map_keyed {A} (f : string → A → A) (m : gmap string A) i :
  (list_to_map ((λ kx, (kx.1, f kx.1 kx.2)) <$> map_to_list m) : gmap string A) !! i
  = f i <$> m !! i.
Proof.
  destruct (m !! i) as [x|] eqn:Hm; cbn.
  - apply elem_of_list_to_map_1.
    + rewrite <- list_fmap_compose.
      apply (NoDup_fst_map_to_list m).
    + apply list_elem_of_fmap. exists (i, x). split; [done|].
      by apply elem_of_map_to_list.
  - apply not_elem_of_list_to_map_1. rewrite <- list_fmap_compose.
    intros ([k x] & Hk & Hin)%list_elem_of_fmap. cbn in Hk. subst k.
    apply elem_of_map_to_list in Hin. congruence.
Qed.

(** A pass of the mutator that does not fail has set or deleted the id in
    every journal of the list. *)
Lemma forEachUpdateFrom_storeLocal own meta (l : list (string * journal.Journal))
    ok ok' l' :
  journal.forEachUpdateFrom (storeLocalMutator own meta) l ok = (ok', l', None) →
  l' = (λ kj, (kj.1, putEntry own meta kj.1 kj.2)) <$> l ∧
  ok' = (ok || bool_decide (own ∈ l.*1)).
Proof.
  revert ok ok' l'. induction l as [|[jid j] l IH]; intros ok ok' l'; cbn.
  { intros [= <- <-]. split; [done|].
    rewrite bool_decide_eq_false_2; [by rewrite orb_false_r|].
    apply not_elem_of_nil. }
  destruct (storeLocalMutator own meta jid j ok) as [[ok1 j1] [e|]] eqn:Hm.
  - destruct e; try discriminate.
    by apply storeLocalMutator_no_stop in Hm.
  - apply storeLocalMutator_ok in Hm as [-> ->].
    destruct (journal.forEachUpdateFrom _ l _) as [[ok2 l2] e2] eqn:Hrest.
    intros [= <- <- ->]. apply IH in Hrest as [-> ->].
    split; [done|]. rewrite <- orb_assoc. f_equal. cbn.
    rewrite <- bool_decide_or. apply bool_decide_ext. by rewrite elem_of_cons.
Qed.

Lemma ForEachUpdate_storeLocal own meta jm ok' jm' :
  journal.ForEachUpdate jm (storeLocalMutator own meta) false = (ok', jm', None) →
  (∀ jid, jm' !! jid = putEntry own meta jid <$> jm !! jid) ∧
  ok' = bool_decide (is_Some (jm !! own)).
Proof.
  unfold journal.ForEachUpdate, journal.iteration.
  destruct (journal.forEachUpdateFrom _ _ _) as [[ok1 l1] [e|]] eqn:Hpass;
    [discriminate|].
  intros [= <- <-]. apply forEachUpdateFrom_storeLocal in Hpass as [-> ->].
  split.
  - intros jid.
    apply (list_to_map_keyed (putEntry own meta)).
  - cbn. apply bool_decide_ext.
    rewrite list_elem_of_fmap. split.
    + intros ([k j] & -> & Hin). apply elem_of_map_to_list in Hin. by eexists.
    + intros [j Hj]. exists (own, j). split; [done|]. by apply elem_of_map_to_list.
Qed.

(** What a call of [storeLocal] that returns no error has done. *)
Lemma storeLocal_ok o r meta o' written :
  storeLocal o r meta = (o', written, None) →
  written = (storage.Write (localStorage o) (journal.ID meta) r).1.2 ∧
  localStorage o' = (storage.Write (localStorage o) (journal.ID meta) r).1.1 ∧
  (∀ jid, journals o' !! jid = putEntry (nodeID o) meta jid <$> journals o !! jid) ∧
  is_Some (journals o !! nodeID o) ∧
  nodeID o' = nodeID o ∧ outboundPump o' = outboundPump o.
Proof.
  unfold storeLocal.
  destruct (storage.Write _ _ _) as [[ls w] [e|]]; [discriminate|]. cbn.
  destruct (journal.ForEachUpdate _ _ _) as [[ok jm] [e|]] eqn:Hupd; [discriminate|].
  apply ForEachUpdate_storeLocal in Hupd as [Hjm ->].
  case_bool_decide as Hown; cbn; [|discriminate].
  intros [= <- <-]. by split_and!.
Qed.

(** Without a journal of its own the node's [storeLocal] fails. *)
Lemma storeLocal_no_journal o r meta :
  journals o !! nodeID o = None →
  is_Some (storeLocal o r meta).2.
Proof.
  intros Hnone. unfold storeLocal.
  destruct (storage.Write _ _ _) as [[ls w] [e|]]; [by eexists|]. cbn.
  destruct (journal.ForEachUpdate _ _ _) as [[ok jm] [e|]] eqn:Hupd; [by eexists|].
  apply ForEachUpdate_storeLocal in Hupd as [_ ->].
  rewrite bool_decide_eq_false_2; [by eexists|].
  rewrite Hnone. by intros [? ?].
Qed.

(** A stop announce sent through the public entry points is dropped; any
    other event joins the end of its pump's queue. *)
Lemma EmitEventAnnounce_queue o ev :
  outboundPump (EmitEventAnnounce o ev) =
  if decide (cluster.Type_ ev = cluster.EventStopAnnounce)
  then outboundPump o else outboundPump o ++ [ev].
Proof. unfold EmitEventAnnounce. by destruct (decide _). Qed.

Lemma ReceiveEventAnnounce_queue o ev :
  inboundPump (ReceiveEventAnnounce o ev) =
  if decide (cluster.Type_ ev = cluster.EventStopAnnounce)
  then inboundPump o else inboundPump o ++ [ev].
Proof. unfold ReceiveEventAnnounce. by destruct (decide _). Qed.

(** An announce touches a pump and nothing else. *)
Lemma EmitEventAnnounce_journals o ev :
  journals (EmitEventAnnounce o ev) = journals o.
Proof. unfold EmitEventAnnounce. by destruct (decide _). Qed.

(** With consistency LOCAL, a call that returns no error returns 0. *)
Lemma PutObject_local_returns_0 o r meta o' n :
  journal.Consistency meta = journal.ConsistencyLocal →
  PutObject o r meta = (o', n, None) → n = 0.
Proof.
  intros Hlocal. unfold PutObject. rewrite decide_True by done.
  destruct (storeLocal o r meta) as [[o1 w] [e|]]; [discriminate|].
  by intros [= _ <-].
Qed.

(** With consistency S3 or FULL, a call that returns no error returns the
    count that the local write reported. *)
Lemma PutObject_remote_returns_written o r meta o' n :
  journal.Consistency meta = journal.ConsistencyS3
  ∨ journal.Consistency meta = journal.ConsistencyFull →
  PutObject o r meta = (o', n, None) →
  n = (storage.Write (localStorage o) (journal.ID meta) r).1.2.
Proof.
  intros Hremote. unfold PutObject.
  pose proof journal.consts_distinct as (Hls & Hlf & Hsf).
  destruct (decide (journal.Consistency meta = journal.ConsistencyLocal)) as [Heq|_].
  { destruct Hremote; congruence. }
  destruct (decide _) as [_|Hno]; [|done].
  destruct (storeLocal o r meta) as [[o1 w] [e|]] eqn:Hstore; [discriminate|].
  apply storeLocal_ok in Hstore as (-> & _).
  destruct (storage.Read _ _) as [f|e]; [|discriminate].
  destruct (storeS3 _ f meta) as [o2 [e|]]; [discriminate|].
  by intros [= _ <-].
Qed.

(** C5.  A [PutObject] with consistency LOCAL that returns no error has
    set the id in the journal the node owns and deleted it from every
    other journal, in the one pass of [ForEachUpdate]; afterwards a journal
    that holds a record for the id is the node's own.  And when the node's
    own journal is not among the journals, [PutObject] returns an error. *)
Theorem PutObject_local_one_journal o r meta :
  journal.Consistency meta = journal.ConsistencyLocal →
  (∀ o' n, PutObject o r meta = (o', n, None) →
     (∃ j, journals o !! nodeID o = Some j ∧
           journals o' !! nodeID o = Some (<[journal.ID meta := meta]> j)) ∧
     (∀ jid, jid ≠ nodeID o →
           journals o' !! jid = delete (journal.ID meta) <$> journals o !! jid) ∧
     (∀ jid j, journals o' !! jid = Some j →
           is_Some (j !! journal.ID meta) → jid = nodeID o))
  ∧ (journals o !! nodeID o = None → is_Some (PutObject o r meta).2).
Proof.
  intros Hlocal. unfold PutObject. rewrite decide_True by done. split.
  - intros o' n.
    destruct (storeLocal o r meta) as [[o1 w] [e|]] eqn:Hstore; [discriminate|].
    apply storeLocal_ok in Hstore as (_ & _ & Hjm & [j Hown] & _).
    intros [= <- _]. rewrite EmitEventAnnounce_journals.
    assert (∀ jid, jid ≠ nodeID o →
              journals o1 !! jid = delete (journal.ID meta) <$> journals o !! jid)
      as Hothers.
    { intros jid Hne. rewrite Hjm.
      destruct (journals o !! jid) as [j0|]; [|done]. cbn. unfold putEntry.
      by rewrite decide_False by congruence. }
    split_and!; [|done|].
    + exists j. split; [done|]. rewrite Hjm, Hown. cbn. unfold putEntry.
      by rewrite decide_True.
    + intros jid j' Hj' [m Hm]. destruct (decide (jid = nodeID o)) as [|Hne]; [done|].
      rewrite (Hothers jid Hne) in Hj'.
      destruct (journals o !! jid) as [j0|]; [|discriminate].
      injection Hj' as <-. by rewrite lookup_delete_eq in Hm.
  - intros Hnone. destruct (storeLocal_no_journal o r meta Hnone) as [e He].
    destruct (storeLocal o r meta) as [[o1 w] e1]. cbn in He. subst e1.
    by eexists.
Qed.

(** C10.  A meta whose consistency level is none of LOCAL, S3 and FULL is
    one that [Check] rejects, and [PutObject] of it returns 0 and an error
    with the store as it was: local and remote storage, journals and both
    pumps untouched. *)
Theorem PutObject_unknown_consistency o r meta :
  journal.Consistency meta ≠ journal.ConsistencyLocal →
  journal.Consistency meta ≠ journal.ConsistencyS3 →
  journal.Consistency meta ≠ journal.ConsistencyFull →
  Check (journal.Consistency meta)
    = (0, Some (Errorf "objstore: invalid consistency level")) ∧
  PutObject o r meta = (o, 0, Some (Errorf "objstore: unknown consistency")).
Proof.
  intros Hl Hs Hf. split.
  - unfold Check. cbv zeta. by rewrite decide_False by tauto.
  - unfold PutObject. rewrite decide_False by done. by rewrite decide_False by tauto.
Qed.

End WriteFacts.

Lemma PutObject_local_one_journal_witness :
  journal.Consistency helloMeta = journal.ConsistencyLocal ∧
  journals (PutObject soloStore hello helloMeta).1.1 !! "n1"
    = Some {["a" := helloMeta]} ∧
  (PutObject soloStore hello helloMeta).2 = None.
Proof.
  assert (journal.Consistency helloMeta = journal.ConsistencyLocal) as H1
    by reflexivity.
  destruct (PutObject_local_one_journal soloStore hello helloMeta H1) as [Hok _].
  assert (PutObject soloStore hello helloMeta
          = ((PutObject soloStore hello helloMeta).1.1,
             (PutObject soloStore hello helloMeta).1.2, None)) as H2
    by (vm_compute; reflexivity).
  destruct (Hok _ _ H2) as ((j & Hj & Hj') & _).
  assert (journals soloStore !! nodeID soloStore = Some (∅ : journal.Journal))
    as Hempty by (vm_compute; reflexivity).
  assert (j = ∅) as -> by congruence.
  split_and!; [exact H1|exact Hj'|vm_compute; reflexivity].
Defined.

Lemma PutObject_unknown_consistency_witness :
  journal.Consistency oddMeta ≠ journal.ConsistencyLocal ∧
  journal.Consistency oddMeta ≠ journal.ConsistencyS3 ∧
  journal.Consistency oddMeta ≠ journal.ConsistencyFull ∧
  PutObject soloStore hello oddMeta
    = (soloStore, 0, Some (Errorf "objstore: unknown consistency")).
Proof.
  assert (journal.Consistency oddMeta ≠ journal.ConsistencyLocal) as H1
    by (vm_compute; discriminate).
  assert (journal.Consistency oddMeta ≠ journal.ConsistencyS3) as H2
    by (vm_compute; discriminate).
  assert (journal.Consistency oddMeta ≠ journal.ConsistencyFull) as H3
    by (vm_compute; discriminate).
  destruct (PutObject_unknown_consistency soloStore hello oddMeta H1 H2 H3)
    as [_ Hput].
  split_and!; [exact H1|exact H2|exact H3|exact Hput].
Defined.

(** C2 (the code departs from it).  [PutObject] is to return the number of
    bytes written locally.  On the node that is alone, the put of the five
    bytes of "hello" as object "a" with consistency LOCAL succeeds: the
    local write reports 5 bytes and the file is on disk, yet the call
    returns 0. *)
Theorem PutObject_local_hello_returns_0 :
  (storage.Write (localStorage soloStore) "a" hello).1.2 = 5 ∧
  (PutObject soloStore hello helloMeta).1.2 = 0 ∧
  (PutObject soloStore hello helloMeta).2 = None ∧
  localStorage (PutObject soloStore hello helloMeta).1.1 !! "a" = Some hello.
Proof. split_and!; vm_compute; reflexivity. Qed.

(** ** The read path *)

Section ReadFacts.

Context {L R C : Type}.
Context `{!storage.LocalStorage L, !storage.RemoteStorage R,
          !cluster.ClusterManager C, !journal.Consts, !journal.Faults}.

Implicit Types (o : objStore L R C) (jm : journal.JournalManager).

(** The scan stops at the first journal that holds the id, without error. *)
Lemma forEachFrom_findMeta id (l : list (string * journal.Journal)) st :
  journal.forEachFrom (findMeta id) l st =
  (match head (omap (λ kj : string * journal.Journal, kj.2 !! id) l) with
   | Some m => Some m
   | None => st
   end, None).
Proof.
  revert st. induction l as [|[jid j] l IH]; intros st; [done|].
  cbn. unfold findMeta at 1, journal.Journal_Get.
  destruct (j !! id) as [m|]; [done|]. apply IH.
Qed.

Lemma ForEach_findMeta jm id :
  journal.ForEach jm (findMeta id) None = (firstRecord jm id, None).
Proof.
  unfold journal.ForEach, firstRecord. rewrite forEachFrom_findMeta.
  by destruct (head _).
Qed.

(** There is a first record exactly when some journal holds the id. *)
Lemma firstRecord_None jm id :
  firstRecord jm id = None ↔ ∀ jid j, jm !! jid = Some j → j !! id = None.
Proof.
  unfold firstRecord, journal.iteration. rewrite head_None. split.
  - intros Hnil jid j Hj. apply elem_of_map_to_list in Hj.
    destruct (j !! id) as [m|] eqn:Hm; [|done].
    assert (m ∈ omap (λ kj : string * journal.Journal, kj.2 !! id) (map_to_list jm))
      as Hin.
    { apply list_elem_of_omap. by exists (jid, j). }
    rewrite Hnil in Hin. by apply elem_of_nil in Hin.
  - intros Hall. apply elem_of_nil_inv. intros m Hin.
    apply list_elem_of_omap in Hin as ([jid j] & Hin & Hm).
    apply elem_of_map_to_list in Hin. cbn in Hm.
    rewrite (Hall jid j Hin) in Hm. discriminate.
Qed.

Lemma firstRecord_Some jm id m :
  firstRecord jm id = Some m → ∃ jid j, jm !! jid = Some j ∧ j !! id = Some m.
Proof.
  unfold firstRecord, journal.iteration. intros Hhead.
  apply head_Some_elem_of in Hhead.
  apply list_elem_of_omap in Hhead as ([jid j] & Hin & Hm).
  apply elem_of_map_to_list in Hin. by exists jid, j.
Qed.

(** [HeadObject] returns the first record, or nothing, and no error. *)
Lemma HeadObject_first o id :
  HeadObject o id = (firstRecord (journals o) id, None).
Proof. apply ForEach_findMeta. Qed.

(** C6.  [GetObject] by cases on the first record for the id that the scan
    of the journals comes across.  No journal holds a record: not-found,
    no meta.  The record is a symlink: not-found with the meta.  The record
    is no symlink and the local read fails: not-found with the meta.  The
    record is no symlink and the local read gives a stream: the stream, the
    meta, no error.  So not-found comes with a meta in the two middle cases
    and in no other. *)
Theorem GetObject_outcomes o id :
  (firstRecord (journals o) id = None ↔
     ∀ jid j, journals o !! jid = Some j → j !! id = None) ∧
  match firstRecord (journals o) id with
  | None => GetObject o id = (None, None, Some ErrNotFound)
  | Some meta =>
      if journal.IsSymlink meta
      then GetObject o id = (None, Some meta, Some ErrNotFound)
      else
        match storage.Read (localStorage o) id with
        | inr _ => GetObject o id = (None, Some meta, Some ErrNotFound)
        | inl f => GetObject o id = (Some f, Some meta, None)
        end
  end ∧
  ((∃ meta, GetObject o id = (None, Some meta, Some ErrNotFound)) ↔
   (∃ meta, firstRecord (journals o) id = Some meta ∧
      (journal.IsSymlink meta = true ∨
       (journal.IsSymlink meta = false ∧
        ∃ err, storage.Read (localStorage o) id = inr err)))).
Proof.
  split; [apply firstRecord_None|].
  unfold GetObject. rewrite ForEach_findMeta.
  destruct (firstRecord (journals o) id) as [meta|].
  - destruct (journal.IsSymlink meta) eqn:Hsym.
    + split; [done|]. split; [|by eauto].
      intros _. exists meta. by eauto.
    + destruct (storage.Read (localStorage o) id) as [f|err] eqn:Hread.
      * split; [done|]. split.
        -- intros [m [=]].
        -- intros (m & [= <-] & [Hs|(_ & err & [=])]). congruence.
      * split; [done|]. split; [|by eauto].
        intros _. exists meta. split; [done|]. right. by eauto.
  - split; [done|]. split.
    + intros [m [=]].
    + intros (m & [=] & _).
Qed.

End ReadFacts.

(** ** remote.go: the listing loop *)

Section ListFacts.

Implicit Types (s : storage.s3Storage) (prefix : string) (startAfter : list string).
Implicit Types (pages : list storage.ListObjectsV2Output).
Implicit Types (rest : list (storage.ListObjectsV2Output + error)).

Lemma specsOf_cons s p pages :
  specsOf s (p :: pages) = map (storage.specOf s) (storage.Contents p) ++ specsOf s pages.
Proof. done. Qed.


(** The requests for all tokens but the last, then the request for the
    last token, are the requests for all tokens. *)
Lemma requests_split {A B} (f : option A → B) (t0 : option A) (toks : list (option A)) :
  map f (removelast (t0 :: toks)) ++ [f (last (t0 :: toks) ≫= id)] = map f (t0 :: toks).
Proof.
  revert t0. induction toks as [|t toks IH]; intros t0; [done|].
  change (removelast (t0 :: t :: toks)) with (t0 :: removelast (t :: toks)).
  change (last (t0 :: t :: toks)) with (last (t :: toks)).
  cbn [map app]. f_equal. apply IH.
Qed.

(** Pages that go on are consumed one by one, their specs appended. *)
Lemma listLoop_goesOn s prefix startAfter pages token specs
    (script : list (storage.ListObjectsV2Output + error)) :
  Forall goesOn pages →
  storage.listLoop s prefix startAfter token specs ((inl <$> pages) ++ script) =
  let '(inputs, res) :=
    storage.listLoop s prefix startAfter
      (last (token :: map storage.ContinuationToken pages) ≫= id)
      (specs ++ specsOf s pages) script in
  (map (storage.listInput s prefix startAfter)
       (removelast (token :: map storage.ContinuationToken pages)) ++ inputs, res).
Proof.
  revert token specs. induction pages as [|p pages IH]; intros token specs Hall.
  { cbn. rewrite app_nil_r. by destruct (storage.listLoop _ _ _ _ _ _). }
  apply Forall_cons in Hall as [[Htrunc [t Ht]] Hall].
  cbn [fmap list_fmap app storage.listLoop]. rewrite Htrunc, Ht.
  rewrite (IH (Some t) _ Hall). rewrite specsOf_cons, <- app_assoc.
  cbn [map]. rewrite Ht.
  change (last (token :: Some t :: map storage.ContinuationToken pages))
    with (last (Some t :: map storage.ContinuationToken pages)).
  destruct (storage.listLoop _ _ _ _ _ script) as [inputs res].
  done.
Qed.


End ListFacts.



(** ** Sync rounds and the journal *)

Section RoundFacts.

Context {L R C : Type}.
Context `{!storage.LocalStorage L, !storage.RemoteStorage R,
          !cluster.ClusterManager C, !journal.Consts, !journal.Faults}.

Implicit Types (o : objStore L R C) (j : journal.Journal).
Implicit Types (meta : journal.FileMeta) (l : list journal.FileMeta).

(** The second loop only ever takes records out of setAdded. *)
Lemma foldl_deletedStep_added l setAdded setDeleted k m :
  (foldl deletedStep (setAdded, setDeleted) l).1 !! k = Some m →
  setAdded !! k = Some m.
Proof.
  revert setAdded setDeleted.
  induction l as [|meta l IH]; intros setAdded setDeleted; [done|].
  cbn [foldl]. unfold deletedStep at 2.
  destruct (setAdded !! journal.ID meta) as [mAdd|]; [|by apply IH].
  destruct (journal.Timestamp mAdd >? journal.Timestamp meta); [by apply IH|].
  intros Hk%IH. by apply lookup_delete_Some in Hk as [_ ?].
Qed.

(** The records a round ranges over carry pairwise different ids. *)
Lemma merge_values_NoDup listAdded listDeleted :
  NoDup (journal.ID <$> (map_to_list (merge listAdded listDeleted).1).*2).
Proof.
  set (s := (merge listAdded listDeleted).1).
  assert (journal.ID <$> (map_to_list s).*2 = (map_to_list s).*1) as ->.
  { rewrite <- list_fmap_compose. apply list_fmap_ext.
    intros i [k m] Hin%list_elem_of_lookup_2%elem_of_map_to_list. cbn.
    apply foldl_deletedStep_added in Hin. by apply mergeAdded_key in Hin. }
  apply NoDup_fst_map_to_list.
Qed.

Lemma roundAdded_NoDup o nodes : NoDup (journal.ID <$> roundAdded o nodes).
Proof.
  unfold roundAdded. destruct (journal.ExportAll _); [|apply NoDup_nil_2].
  apply merge_values_NoDup.
Qed.

Lemma recorded_ID meta m : recorded meta = Some m → journal.ID m = journal.ID meta.
Proof.
  unfold recorded. destruct (journal.IsDeleted meta); [by intros [= <-]|].
  repeat destruct (decide _); by intros [= <-].
Qed.





(** [applyAdded] leaves the node's id and its cluster manager alone, and
    treats the journal as [journalStep] says. *)
Lemma applyAdded_view jid o j meta :
  nodeID (applyAdded jid (o, j) meta).1 = nodeID o ∧
  cluster (applyAdded jid (o, j) meta).1 = cluster o ∧
  journals (applyAdded jid (o, j) meta).1 = journals o ∧
  (applyAdded jid (o, j) meta).2 = journalStep jid j meta.
Proof.
  unfold applyAdded, journalStep, recorded.
  destruct (journal.IsDeleted meta); [done|].
  destruct (decide _); [done|]. destruct (decide _); [|done].
  unfold ReceiveEventAnnounce. by destruct (decide _).
Qed.

Lemma foldl_applyAdded_view jid o j l :
  nodeID (foldl (applyAdded jid) (o, j) l).1 = nodeID o ∧
  cluster (foldl (applyAdded jid) (o, j) l).1 = cluster o ∧
  journals (foldl (applyAdded jid) (o, j) l).1 = journals o ∧
  (foldl (applyAdded jid) (o, j) l).2 = foldl (journalStep jid) j l.
Proof.
  revert o j. induction l as [|meta l IH]; intros o j; [done|].
  cbn [foldl]. destruct (applyAdded_view jid o j meta) as (Hn & Hc & Hj & Hs).
  destruct (applyAdded jid (o, j) meta) as [o1 j1]. cbn in Hn, Hc, Hj, Hs.
  destruct (IH o1 j1) as (-> & -> & -> & ->). by rewrite Hn, Hc, Hj, Hs.
Qed.

Lemma foldl_announceDeleted_view o l :
  nodeID (foldl announceDeleted o l) = nodeID o ∧
  cluster (foldl announceDeleted o l) = cluster o ∧
  journals (foldl announceDeleted o l) = journals o ∧
  state (foldl announceDeleted o l) = state o.
Proof.
  revert o. induction l as [|meta l IH]; intros o; [done|].
  cbn [foldl]. destruct (IH (announceDeleted o meta)) as (-> & -> & -> & ->).
  unfold announceDeleted, EmitEventAnnounce.
  destruct (journal.IsDeleted meta); by destruct (decide _).
Qed.



(** A round with two nodes or more, from the journal's side: it ends the
    process when the node has no journal of its own, and otherwise returns
    true with the node's journal ranged over by the records of setAdded. *)
Lemma sync_round o nodes :
  cluster.ListNodes (cluster o) = inl nodes →
  (2 ≤ length nodes)%nat →
  match journals o !! nodeID o with
  | None => sync o = SyncFatal
  | Some j =>
      ∃ o1, sync o = SyncReturn true o1 ∧
        journals o1 = <[nodeID o := foldl (journalStep (nodeID o)) j (roundAdded o nodes)]>
                        (journals o) ∧
        nodeID o1 = nodeID o ∧ cluster o1 = cluster o ∧
        state o1 = storeActiveState
  end.
Proof.
  intros Hnodes Hlen. unfold sync, roundAdded. rewrite Hnodes.
  assert ((length nodes <? 2)%nat = false) as -> by (apply Nat.ltb_ge; lia).
  cbn [journals setState nodeID]. unfold journal.ExportAll.
  change (collect (setState storeInactiveState o)) with (collect o).
  destruct (collect o _ nodes) as [la ld]. cbn [fst snd].
  destruct (merge la ld) as [setAdded setDeleted]. cbn [fst].
  unfold journal.Update. cbn [journals setState nodeID].
  destruct (journals o !! nodeID o) as [j|]; [|done].
  unfold syncMutator.
  pose proof (foldl_applyAdded_view (nodeID o) (setState storeInactiveState o) j
                (map_to_list setAdded).*2) as (Hn & Hc & Hj & Hs).
  destruct (foldl (applyAdded (nodeID o)) _ _) as [o' j'].
  cbn [fst snd] in Hn, Hc, Hj, Hs. subst j'.
  eexists. split; [reflexivity|].
  destruct (foldl_announceDeleted_view
              (setState storeActiveState
                 (setJournals (<[nodeID o := foldl (journalStep (nodeID o)) j
                                              (map_to_list setAdded).*2]> (journals o)) o'))
              (map_to_list setDeleted).*2) as (-> & -> & -> & ->).
  by split_and!.
Qed.


End RoundFacts.


(** ** More on the merge loops *)

Section MergeMore.

Implicit Types (setAdded setDeleted : gmap string journal.FileMeta).
Implicit Types (l listAdded listDeleted : journal.FileMetaList).
Implicit Types (m meta : journal.FileMeta) (id : string).

Lemma foldl_deletedStep_disjoint l setAdded setDeleted :
  (∀ id, setAdded !! id = None ∨ setDeleted !! id = None) →
  ∀ id, (foldl deletedStep (setAdded, setDeleted) l).1 !! id = None ∨
        (foldl deletedStep (setAdded, setDeleted) l).2 !! id = None.
Proof.
  revert setAdded setDeleted.
  induction l as [|meta l IH]; intros setAdded setDeleted Hdisj; [done|].
  cbn [foldl].
  destruct (deletedStep (setAdded, setDeleted) meta) as [A1 D1] eqn:Hstep.
  apply IH. intros id. unfold deletedStep in Hstep.
  rewrite storeDeleted_insert in Hstep.
  destruct (setAdded !! journal.ID meta) as [mAdd|] eqn:Hadd.
  - destruct (journal.Timestamp mAdd >? journal.Timestamp meta);
      injection Hstep as <- <-; [done|].
    destruct (decide (journal.ID meta = id)) as [<-|Hne].
    + left. apply lookup_delete_eq.
    + rewrite lookup_delete_ne, lookup_insert_ne by done. apply Hdisj.
  - injection Hstep as <- <-.
    destruct (decide (journal.ID meta = id)) as [<-|Hne]; [by left|].
    rewrite lookup_insert_ne by done. apply Hdisj.
Qed.

(** After the two loops no id is in both maps: what sync applies as an add
    it never announces as a delete. *)
Theorem merge_disjoint listAdded listDeleted id :
  (merge listAdded listDeleted).1 !! id = None ∨
  (merge listAdded listDeleted).2 !! id = None.
Proof.
  unfold merge, mergeDeleted. apply foldl_deletedStep_disjoint.
  intros k. right. apply lookup_empty.
Qed.

Lemma foldl_deletedStep_deleted l setAdded setDeleted id d :
  (foldl deletedStep (setAdded, setDeleted) l).2 !! id = Some d →
  setDeleted !! id = Some d ∨ (d ∈ l ∧ journal.ID d = id).
Proof.
  revert setAdded setDeleted.
  induction l as [|meta l IH]; intros setAdded setDeleted; [by left|].
  cbn [foldl].
  destruct (deletedStep (setAdded, setDeleted) meta) as [A1 D1] eqn:Hstep.
  intros [Hd|[Hin Hid]]%IH; [|right; split; [by apply list_elem_of_further|done]].
  unfold deletedStep in Hstep. rewrite storeDeleted_insert in Hstep.
  assert (D1 = setDeleted ∨ D1 = <[journal.ID meta := meta]> setDeleted) as [->| ->].
  { destruct (setAdded !! journal.ID meta) as [mAdd|];
      [destruct (journal.Timestamp mAdd >? journal.Timestamp meta)|];
      injection Hstep as <- <-; by eauto. }
  - by left.
  - apply lookup_insert_Some in Hd as [[<- <-]|[_ Hd]]; [|by left].
    right. split; [apply list_elem_of_here|done].
Qed.

(** Every record of the two maps was reported by a peer, in the list the
    map is built from, and sits under its own id. *)
Theorem merge_provenance listAdded listDeleted id m :
  ((merge listAdded listDeleted).1 !! id = Some m →
     m ∈ listAdded ∧ journal.ID m = id) ∧
  ((merge listAdded listDeleted).2 !! id = Some m →
     m ∈ listDeleted ∧ journal.ID m = id).
Proof.
  unfold merge, mergeDeleted. split.
  - intros Hm%foldl_deletedStep_added. rewrite mergeAdded_lookup in Hm.
    apply last_Some in Hm as [l' Hl'].
    assert (m ∈ recordsFor id listAdded) as Hin by (rewrite Hl'; set_solver).
    by apply recordsFor_elem in Hin.
  - intros [Hm|Hm]%foldl_deletedStep_deleted; [|done].
    by rewrite lookup_empty in Hm.
Qed.

(** The add map holds an id exactly when some peer reported an add for it;
    and when no peer reported an add for an id, the delete map holds the id
    exactly when some peer reported a delete for it. *)
Theorem merge_domains listAdded listDeleted id :
  (is_Some (mergeAdded listAdded !! id) ↔ ∃ m, m ∈ listAdded ∧ journal.ID m = id) ∧
  (mergeAdded listAdded !! id = None →
   (is_Some ((merge listAdded listDeleted).2 !! id)
    ↔ ∃ d, d ∈ listDeleted ∧ journal.ID d = id)).
Proof.
  assert (∀ l, is_Some (last (recordsFor id l)) ↔ ∃ m, m ∈ l ∧ journal.ID m = id)
    as Hlast.
  { intros l. split.
    - intros [m Hm]. exists m. apply recordsFor_elem.
      apply last_Some in Hm as [l' ->]. set_solver.
    - intros (m & Hin). apply recordsFor_elem in Hin.
      destruct (recordsFor id l) as [|x xs]; [by apply elem_of_nil in Hin|].
      destruct (last (x :: xs)) eqn:Hl; [by eexists|]. by apply last_None in Hl. }
  split.
  - rewrite mergeAdded_lookup. apply Hlast.
  - intros Hnone. unfold merge, mergeDeleted.
    destruct (foldl_deletedStep_absent listDeleted (mergeAdded listAdded) ∅ id Hnone)
      as [_ ->].
    rewrite <- Hlast, lookup_empty. by destruct (last _).
Qed.

End MergeMore.

Lemma merge_domains_witness :
  mergeAdded [metaAt "a" 1] !! "c" = None ∧
  is_Some ((merge [metaAt "a" 1] [metaAt "c" 2]).2 !! "c").
Proof.
  assert (mergeAdded [metaAt "a" 1] !! "c" = None) as H1 by (vm_compute; reflexivity).
  destruct (merge_domains [metaAt "a" 1] [metaAt "c" 2] "c") as [_ Hdel].
  split; [exact H1|]. apply (Hdel H1).
  exists (metaAt "c" 2). split; [apply list_elem_of_here|reflexivity].
Defined.

(** ** What a sync round does to the store *)

Section RoundEffectFacts.

Context {L R C : Type}.
Context `{!storage.LocalStorage L, !storage.RemoteStorage R,
          !cluster.ClusterManager C, !journal.Consts, !journal.Faults}.

Implicit Types (o : objStore L R C) (j : journal.Journal).
Implicit Types (meta : journal.FileMeta) (l : list journal.FileMeta).

Lemma applyAdded_closed jid o j meta :
  applyAdded jid (o, j) meta =
  (mkObjStore (nodeID o) (debug o) (state o) (removeStep (localStorage o) meta)
     (remoteStorage o) (journals o) (cluster o) (outboundPump o)
     (inboundPump o ++ omap replicated [meta]),
   journalStep jid j meta).
Proof.
  destruct o as [n d s ls rs jm c ob ib].
  unfold applyAdded, journalStep, recorded, removeStep, replicated. cbn.
  destruct (journal.IsDeleted meta); cbn; [by rewrite app_nil_r|].
  destruct (decide _); cbn; [by rewrite app_nil_r|].
  destruct (decide _); cbn; [done|by rewrite app_nil_r].
Qed.

Lemma foldl_applyAdded_closed jid o j l :
  foldl (applyAdded jid) (o, j) l =
  (mkObjStore (nodeID o) (debug o) (state o) (foldl removeStep (localStorage o) l)
     (remoteStorage o) (journals o) (cluster o) (outboundPump o)
     (inboundPump o ++ omap replicated l),
   foldl (journalStep jid) j l).
Proof.
  revert o j. induction l as [|meta l IH]; intros o j.
  { destruct o. cbn. by rewrite app_nil_r. }
  cbn [foldl]. rewrite applyAdded_closed, IH. cbn.
  rewrite <- app_assoc. do 2 f_equal.
  by destruct (replicated meta).
Qed.

Lemma announceDeleted_closed o meta :
  announceDeleted o meta =
  mkObjStore (nodeID o) (debug o) (state o) (localStorage o) (remoteStorage o)
    (journals o) (cluster o) (outboundPump o ++ [deletedEvent meta]) (inboundPump o).
Proof.
  unfold announceDeleted, deletedEvent, EmitEventAnnounce.
  by destruct (journal.IsDeleted meta).
Qed.

Lemma foldl_announceDeleted_closed o l :
  foldl announceDeleted o l =
  mkObjStore (nodeID o) (debug o) (state o) (localStorage o) (remoteStorage o)
    (journals o) (cluster o) (outboundPump o ++ (deletedEvent <$> l)) (inboundPump o).
Proof.
  revert o. induction l as [|meta l IH]; intros o.
  { destruct o. cbn. by rewrite app_nil_r. }
  cbn [foldl]. rewrite IH, announceDeleted_closed. cbn.
  by rewrite <- app_assoc.
Qed.

(** A round with two nodes or more and a journal of the node's own, in
    closed form. *)
Lemma sync_round_closed o nodes j :
  cluster.ListNodes (cluster o) = inl nodes →
  (2 ≤ length nodes)%nat →
  journals o !! nodeID o = Some j →
  sync o = SyncReturn true
    (mkObjStore (nodeID o) (debug o) storeActiveState
       (foldl removeStep (localStorage o) (roundAdded o nodes))
       (remoteStorage o)
       (<[nodeID o := foldl (journalStep (nodeID o)) j (roundAdded o nodes)]> (journals o))
       (cluster o)
       (outboundPump o ++ (deletedEvent <$> roundDeleted o nodes))
       (inboundPump o ++ omap replicated (roundAdded o nodes))).
Proof.
  intros Hnodes Hlen Hown.
  unfold sync, roundAdded, roundDeleted, roundSets. rewrite Hnodes.
  assert ((length nodes <? 2)%nat = false) as -> by (apply Nat.ltb_ge; lia).
  cbn [journals setState nodeID]. unfold journal.ExportAll.
  change (collect (setState storeInactiveState o)) with (collect o).
  destruct (collect o _ nodes) as [la ld]. cbn [fst snd].
  destruct (merge la ld) as [setAdded setDeleted]. cbn [fst snd].
  unfold journal.Update. cbn [journals setState nodeID]. rewrite Hown.
  unfold syncMutator. rewrite foldl_applyAdded_closed.
  rewrite foldl_announceDeleted_closed. done.
Qed.

Lemma sync_return_active o synced o1 :
  sync o = SyncReturn synced o1 → state o1 = storeActiveState.
Proof.
  unfold sync. destruct (cluster.ListNodes (cluster o)) as [nodes|err]; [|done].
  destruct (length nodes <? 2)%nat; [by intros [= <- <-]|].
  destruct (journal.ExportAll _) as [exported|]; [|done].
  destruct (collect _ exported nodes) as [la ld].
  destruct (merge la ld) as [setAdded setDeleted].
  destruct (journal.Update _ _ _ _) as [[o' jm] [e|]]; [done|].
  intros [= <- <-]. by destruct (foldl_announceDeleted_view
    (setState storeActiveState (setJournals jm o')) (map_to_list setDeleted).*2)
    as (_ & _ & _ & ->).
Qed.

(** Whenever a round returns, with either flag, the store is ready, and
    its id, its cluster manager and its remote storage are as before. *)
Theorem sync_returns_ready o synced o1 :
  sync o = SyncReturn synced o1 →
  IsReady o1 = true ∧ nodeID o1 = nodeID o ∧ cluster o1 = cluster o ∧
  remoteStorage o1 = remoteStorage o.
Proof.
  intros Hsync.
  destruct (cluster.ListNodes (cluster o)) as [nodes|err] eqn:Hnodes.
  2:{ unfold sync in Hsync. by rewrite Hnodes in Hsync. }
  destruct (decide (length nodes < 2)%nat) as [Hlt|Hge].
  - rewrite (sync_alone o nodes Hnodes Hlt) in Hsync. by injection Hsync as <- <-.
  - pose proof (sync_round o nodes Hnodes ltac:(lia)) as Hround.
    destruct (journals o !! nodeID o) as [j|] eqn:Hown; [|congruence].
    rewrite (sync_round_closed o nodes j Hnodes ltac:(lia) Hown) in Hsync.
    by injection Hsync as <- <-.
Qed.


(** A round writes to no journal but the node's own. *)
Theorem sync_other_journals o synced o1 jid :
  sync o = SyncReturn synced o1 →
  jid ≠ nodeID o →
  journals o1 !! jid = journals o !! jid.
Proof.
  intros Hsync Hne.
  destruct (cluster.ListNodes (cluster o)) as [nodes|err] eqn:Hnodes.
  2:{ unfold sync in Hsync. by rewrite Hnodes in Hsync. }
  destruct (decide (length nodes < 2)%nat) as [Hlt|Hge].
  - rewrite (sync_alone o nodes Hnodes Hlt) in Hsync. by injection Hsync as <- <-.
  - pose proof (sync_round o nodes Hnodes ltac:(lia)) as Hround.
    destruct (journals o !! nodeID o) as [j|] eqn:Hown; [|congruence].
    destruct Hround as (o1' & Hsync' & Hj & _).
    rewrite Hsync' in Hsync. injection Hsync as <- <-.
    by rewrite Hj, lookup_insert_ne.
Qed.

Lemma journalStep_lookup_ne jid j meta id :
  journal.ID meta ≠ id → journalStep jid j meta !! id = j !! id.
Proof.
  intros Hne. unfold journalStep, journal.Journal_Set.
  destruct (recorded meta) as [m|] eqn:Hrec; [|done].
  rewrite (recorded_ID _ _ Hrec).
  destruct (journal.setFault jid (journal.ID meta)); [done|]. cbn.
  by rewrite lookup_insert_ne.
Qed.

Lemma journalStep_lookup_eq jid j meta :
  journalStep jid j meta !! journal.ID meta =
  match recorded meta, journal.setFault jid (journal.ID meta) with
  | Some m, None => Some m
  | _, _ => j !! journal.ID meta
  end.
Proof.
  unfold journalStep, journal.Journal_Set.
  destruct (recorded meta) as [m|] eqn:Hrec; [|done].
  rewrite (recorded_ID _ _ Hrec).
  destruct (journal.setFault jid (journal.ID meta)); [done|]. cbn.
  by rewrite lookup_insert_eq.
Qed.

Lemma foldl_journalStep_lookup_notin jid j l id :
  id ∉ journal.ID <$> l → foldl (journalStep jid) j l !! id = j !! id.
Proof.
  revert j. induction l as [|x l IH]; intros j Hnotin; [done|].
  rewrite fmap_cons, not_elem_of_cons in Hnotin. destruct Hnotin as [Hne Hnotin].
  cbn [foldl]. rewrite IH by done. by apply journalStep_lookup_ne.
Qed.

Lemma foldl_journalStep_lookup_in jid j l meta :
  NoDup (journal.ID <$> l) → meta ∈ l →
  foldl (journalStep jid) j l !! journal.ID meta
  = journalStep jid j meta !! journal.ID meta.
Proof.
  revert j. induction l as [|x l IH]; intros j Hnd Hin.
  { by apply elem_of_nil in Hin. }
  rewrite fmap_cons in Hnd. apply NoDup_cons in Hnd as [Hx Hnd].
  cbn [foldl]. apply elem_of_cons in Hin as [->|Hin].
  - by apply foldl_journalStep_lookup_notin.
  - rewrite IH by done.
    assert (journal.ID x ≠ journal.ID meta) as Hne.
    { intros Heq. apply Hx. rewrite Heq. by apply list_elem_of_fmap_2. }
    rewrite !journalStep_lookup_eq. by rewrite journalStep_lookup_ne.
Qed.

(** A round that returns true has listed two nodes or more and found the
    node's own journal. *)
Lemma sync_true_inv o o1 nodes :
  sync o = SyncReturn true o1 →
  cluster.ListNodes (cluster o) = inl nodes →
  (2 ≤ length nodes)%nat ∧ ∃ j, journals o !! nodeID o = Some j.
Proof.
  intros Hsync Hnodes.
  destruct (decide (length nodes < 2)%nat) as [Hlt|Hge].
  { by rewrite (sync_alone o nodes Hnodes Hlt) in Hsync. }
  split; [lia|].
  pose proof (sync_round o nodes Hnodes ltac:(lia)) as Hround.
  destruct (journals o !! nodeID o) as [j|]; [by eexists|congruence].
Qed.

(** What a round writes under the id of a record that survived the merge
    as an add: the tombstone as it came when the record is one, the record
    marked as symlink when it is live with a known consistency level;
    provided the journal takes the write. *)
Theorem sync_records_add o o1 nodes meta :
  sync o = SyncReturn true o1 →
  cluster.ListNodes (cluster o) = inl nodes →
  meta ∈ roundAdded o nodes →
  journal.setFault (nodeID o) (journal.ID meta) = None →
  journal.IsDeleted meta = true ∨
  journal.Consistency meta = journal.ConsistencyLocal ∨
  journal.Consistency meta = journal.ConsistencyS3 ∨
  journal.Consistency meta = journal.ConsistencyFull →
  ∃ j1, journals o1 !! nodeID o = Some j1 ∧
        j1 !! journal.ID meta =
          Some (if journal.IsDeleted meta then meta
                else journal.setIsSymlink true meta).
Proof.
  intros Hsync Hnodes Hin Hfault Hkind.
  destruct (sync_true_inv o o1 nodes Hsync Hnodes) as [Hlen [j Hown]].
  rewrite (sync_round_closed o nodes j Hnodes Hlen Hown) in Hsync.
  injection Hsync as <-. cbn [journals]. rewrite lookup_insert_eq.
  eexists. split; [done|].
  rewrite foldl_journalStep_lookup_in by (apply roundAdded_NoDup || done).
  rewrite journalStep_lookup_eq, Hfault. unfold recorded.
  destruct (journal.IsDeleted meta); [done|].
  destruct (decide _) as [|Hno1]; [done|]. destruct (decide _) as [|Hno2]; [done|].
  destruct Hkind as [|[|[|]]]; [done|tauto..].
Qed.

(** What a round leaves alone in the node's own journal: an id for which
    no add survived the merge, and the id of a live record whose
    consistency level is none of the three. *)
Theorem sync_keeps_entry o o1 nodes id :
  sync o = SyncReturn true o1 →
  cluster.ListNodes (cluster o) = inl nodes →
  (∀ meta, meta ∈ roundAdded o nodes → journal.ID meta = id →
     journal.IsDeleted meta = false ∧
     journal.Consistency meta ≠ journal.ConsistencyLocal ∧
     journal.Consistency meta ≠ journal.ConsistencyS3 ∧
     journal.Consistency meta ≠ journal.ConsistencyFull) →
  ∃ j j1, journals o !! nodeID o = Some j ∧ journals o1 !! nodeID o = Some j1 ∧
          j1 !! id = j !! id.
Proof.
  intros Hsync Hnodes Hall.
  destruct (sync_true_inv o o1 nodes Hsync Hnodes) as [Hlen [j Hown]].
  rewrite (sync_round_closed o nodes j Hnodes Hlen Hown) in Hsync.
  injection Hsync as <-. cbn [journals]. rewrite lookup_insert_eq.
  exists j. eexists. split_and!; [done..|].
  destruct (decide (id ∈ journal.ID <$> roundAdded o nodes)) as [Hin|Hnotin].
  - apply list_elem_of_fmap in Hin as (meta & -> & Hin).
    rewrite foldl_journalStep_lookup_in by (apply roundAdded_NoDup || done).
    rewrite journalStep_lookup_eq.
    destruct (Hall meta Hin eq_refl) as (Hlive & Hl & Hs & Hf).
    unfold recorded. rewrite Hlive.
    rewrite decide_False by tauto. by rewrite decide_False by done.
  - by apply foldl_journalStep_lookup_notin.
Qed.


(** A round touches the local storage only to remove: when no tombstone
    survived the merge as an add, the local storage is as before. *)
Theorem sync_local_storage o o1 nodes :
  sync o = SyncReturn true o1 →
  cluster.ListNodes (cluster o) = inl nodes →
  (∀ meta, meta ∈ roundAdded o nodes → journal.IsDeleted meta = false) →
  localStorage o1 = localStorage o.
Proof.
  intros Hsync Hnodes Hlive.
  destruct (sync_true_inv o o1 nodes Hsync Hnodes) as [Hlen [j Hown]].
  rewrite (sync_round_closed o nodes j Hnodes Hlen Hown) in Hsync.
  injection Hsync as <-. cbn [localStorage].
  revert Hlive. generalize (localStorage o). generalize (roundAdded o nodes).
  intros l. induction l as [|meta l IH]; intros ls Hlive; [done|].
  cbn [foldl]. unfold removeStep at 2.
  rewrite (Hlive meta) by apply list_elem_of_here.
  apply IH. intros m Hm. apply Hlive. by apply list_elem_of_further.
Qed.

Lemma collect_nothing o exported nodes :
  (∀ node, node ∈ nodes → cluster.ID node ≠ nodeID o →
     (∃ err, cluster.Sync (cluster o) (cluster.ID node) exported = inr err) ∨
     cluster.Sync (cluster o) (cluster.ID node) exported = inl ([], [])) →
  collect o exported nodes = ([], []).
Proof.
  unfold collect. induction nodes as [|node nodes IH]; intros Hall; [done|].
  cbn [foldl]. unfold collectStep at 2.
  destruct (decide (cluster.ID node = nodeID o)) as [Heq|Hne].
  - apply IH. intros n Hn. apply Hall. by apply list_elem_of_further.
  - destruct (Hall node (list_elem_of_here _ _) Hne) as [[err ->]| ->]; cbn;
      apply IH; intros n Hn; apply Hall; by apply list_elem_of_further.
Qed.

(** Peers that fail or have nothing to report do not hold a round up: it
    returns true and leaves the store as it was, but for the state, now
    ACTIVE. *)
Theorem sync_nothing_reported o nodes :
  cluster.ListNodes (cluster o) = inl nodes →
  (2 ≤ length nodes)%nat →
  is_Some (journals o !! nodeID o) →
  (∀ node exported, node ∈ nodes → cluster.ID node ≠ nodeID o →
     (∃ err, cluster.Sync (cluster o) (cluster.ID node) exported = inr err) ∨
     cluster.Sync (cluster o) (cluster.ID node) exported = inl ([], [])) →
  sync o = SyncReturn true (setState storeActiveState o).
Proof.
  intros Hnodes Hlen [j Hown] Hall.
  rewrite (sync_round_closed o nodes j Hnodes Hlen Hown).
  unfold roundAdded, roundDeleted, roundSets, journal.ExportAll.
  rewrite collect_nothing by (intros; by apply Hall).
  cbn [fst snd]. unfold merge, mergeAdded, mergeDeleted. cbn [foldl fst snd].
  rewrite map_to_list_empty. cbn. rewrite !app_nil_r, insert_id by done.
  by destruct o.
Qed.

End RoundEffectFacts.

Lemma sync_returns_ready_witness :
  sync mixedStore = SyncReturn true mixedSynced ∧
  IsReady mixedStore = false ∧ IsReady mixedSynced = true.
Proof.
  assert (sync mixedStore = SyncReturn true mixedSynced) as H1
    by (vm_compute; reflexivity).
  destruct (sync_returns_ready mixedStore true mixedSynced H1) as (Hready & _).
  split_and!; [exact H1|reflexivity|exact Hready].
Defined.

Lemma sync_other_journals_witness :
  sync mixedStore = SyncReturn true mixedSynced ∧
  "n2" ≠ nodeID mixedStore ∧
  journals mixedSynced !! "n2" = Some {["z" := metaAt "z" 1]}.
Proof.
  assert (sync mixedStore = SyncReturn true mixedSynced) as H1
    by (vm_compute; reflexivity).
  assert ("n2" ≠ nodeID mixedStore) as H2 by (vm_compute; discriminate).
  split_and!; [exact H1|exact H2|].
  rewrite (sync_other_journals mixedStore true mixedSynced "n2" H1 H2).
  vm_compute. reflexivity.
Defined.

Lemma sync_records_add_witness :
  sync mixedStore = SyncReturn true mixedSynced ∧
  fullMeta ∈ roundAdded mixedStore mixedNodes ∧
  ∃ j1, journals mixedSynced !! "n1" = Some j1 ∧
        j1 !! "d" = Some (journal.setIsSymlink true fullMeta).
Proof.
  assert (sync mixedStore = SyncReturn true mixedSynced) as H1
    by (vm_compute; reflexivity).
  assert (cluster.ListNodes (cluster mixedStore) = inl mixedNodes) as H2
    by reflexivity.
  assert (fullMeta ∈ roundAdded mixedStore mixedNodes) as H3.
  { assert (roundAdded mixedStore mixedNodes = [goneMeta; metaAt "b" 100; fullMeta])
      as -> by (vm_compute; reflexivity).
    apply list_elem_of_further, list_elem_of_further, list_elem_of_here. }
  assert (journal.setFault (nodeID mixedStore) (journal.ID fullMeta) = None) as H4
    by reflexivity.
  split_and!; [exact H1|exact H3|].
  apply (sync_records_add mixedStore mixedSynced mixedNodes fullMeta H1 H2 H3 H4).
  right. right. right. reflexivity.
Defined.

Lemma sync_keeps_entry_witness :
  sync mixedStore = SyncReturn true mixedSynced ∧
  ∃ j j1, journals mixedStore !! "n1" = Some j ∧
          journals mixedSynced !! "n1" = Some j1 ∧ j1 !! "e" = j !! "e".
Proof.
  assert (sync mixedStore = SyncReturn true mixedSynced) as H1
    by (vm_compute; reflexivity).
  assert (cluster.ListNodes (cluster mixedStore) = inl mixedNodes) as H2
    by reflexivity.
  split; [exact H1|].
  apply (sync_keeps_entry mixedStore mixedSynced mixedNodes "e" H1 H2).
  assert (roundAdded mixedStore mixedNodes = [goneMeta; metaAt "b" 100; fullMeta])
    as -> by (vm_compute; reflexivity).
  intros meta Hin Hid. exfalso.
  repeat (apply elem_of_cons in Hin as [->|Hin]; [discriminate Hid|]).
  by apply elem_of_nil in Hin.
Defined.


Lemma sync_local_storage_witness :
  sync pairStore = SyncReturn true pairStoreSynced ∧
  localStorage pairStoreSynced = localStorage pairStore.
Proof.
  assert (sync pairStore = SyncReturn true pairStoreSynced) as H1
    by (vm_compute; reflexivity).
  assert (cluster.ListNodes (cluster pairStore)
          = inl [cluster.mkNodeInfo "n1"; cluster.mkNodeInfo "n2"]) as H2
    by reflexivity.
  split; [exact H1|].
  apply (sync_local_storage pairStore pairStoreSynced _ H1 H2).
  assert (roundAdded pairStore [cluster.mkNodeInfo "n1"; cluster.mkNodeInfo "n2"]
          = [metaAt "b" 100]) as -> by (vm_compute; reflexivity).
  intros meta Hin. apply list_elem_of_singleton in Hin as ->. reflexivity.
Defined.

Lemma sync_nothing_reported_witness :
  (2 ≤ length (members (cluster quietStore)))%nat ∧
  is_Some (journals quietStore !! nodeID quietStore) ∧
  sync quietStore = SyncReturn true (setState storeActiveState quietStore).
Proof.
  assert (cluster.ListNodes (cluster quietStore) = inl (members (cluster quietStore)))
    as H1 by reflexivity.
  assert (2 ≤ length (members (cluster quietStore)))%nat as H2 by (cbn; lia).
  assert (is_Some (journals quietStore !! nodeID quietStore)) as H3
    by (vm_compute; eexists; reflexivity).
  split_and!; [exact H2|exact H3|].
  apply (sync_nothing_reported quietStore _ H1 H2 H3).
  intros node exported _ _. left. by eexists.
Defined.

(** ** The start-up loop and the pumps *)

Section PumpFacts.

Context {L R C : Type}.
Context `{!storage.LocalStorage L, !storage.RemoteStorage R,
          !cluster.ClusterManager C, !journal.Consts, !journal.Faults}.

Implicit Types (o : objStore L R C) (ev : cluster.EventAnnounce).

(** Once the start-up loop has run a round, the store is ready unless the
    process was ended: whether the loop was left, after at most as many
    rounds as were run, or is still retrying. *)
Theorem syncLoop_ready rounds o :
  match syncLoop (S rounds) o with
  | StartupFatal => True
  | StartupDone k o' => IsReady o' = true ∧ (1 ≤ k ≤ S rounds)%nat
  | StartupRetrying o' => IsReady o' = true
  end.
Proof.
  revert o. induction rounds as [|n IH]; intros o.
  - cbn. destruct (sync o) as [|[] o1] eqn:Hsync; [done| |];
      apply sync_return_active in Hsync; unfold IsReady; rewrite Hsync;
      [split; [done|lia]|done].
  - change (syncLoop (S (S n)) o) with
      (match sync o with
       | SyncFatal => StartupFatal
       | SyncReturn true o' => StartupDone 1 o'
       | SyncReturn false o' =>
           match syncLoop (S n) o' with
           | StartupDone k o'' => StartupDone (S k) o''
           | r => r
           end
       end).
    destruct (sync o) as [|[] o1] eqn:Hsync; [done| |].
    + apply sync_return_active in Hsync. unfold IsReady. rewrite Hsync.
      split; [done|lia].
    + specialize (IH o1). destruct (syncLoop (S n) o1); [done| |done].
      destruct IH as [? ?]. split; [done|lia].
Qed.

(** Events sent through [EmitEventAnnounce] join the outbound queue in the
    order sent, stop announces left out; nothing else of the store
    changes.  Likewise [ReceiveEventAnnounce] and the inbound queue. *)
Theorem announces_queue_in_order o (evs : list cluster.EventAnnounce) :
  foldl EmitEventAnnounce o evs =
    setOutboundPump
      (outboundPump o
       ++ filter (λ ev, cluster.Type_ ev ≠ cluster.EventStopAnnounce) evs) o ∧
  foldl ReceiveEventAnnounce o evs =
    setInboundPump
      (inboundPump o
       ++ filter (λ ev, cluster.Type_ ev ≠ cluster.EventStopAnnounce) evs) o.
Proof.
  split; revert o; induction evs as [|ev evs IH]; intros o.
  - destruct o. cbn. unfold setOutboundPump. cbn. by rewrite app_nil_r.
  - cbn [foldl]. rewrite IH, filter_cons.
    unfold EmitEventAnnounce. destruct (decide _) as [Hstop|Hlive].
    + by rewrite decide_False by (intros Hne; by apply Hne).
    + rewrite decide_True by done. destruct o. unfold setOutboundPump. cbn.
      by rewrite <- app_assoc.
  - destruct o. cbn. unfold setInboundPump. cbn. by rewrite app_nil_r.
  - cbn [foldl]. rewrite IH, filter_cons.
    unfold ReceiveEventAnnounce. destruct (decide _) as [Hstop|Hlive].
    + by rewrite decide_False by (intros Hne; by apply Hne).
    + rewrite decide_True by done. destruct o. unfold setInboundPump. cbn.
      by rewrite <- app_assoc.
Qed.

Lemma fileEvent_not_stop t meta :
  t ≠ cluster.EventStopAnnounce →
  cluster.Type_ (fileEvent t meta) ≠ cluster.EventStopAnnounce.
Proof. done. Qed.

Lemma EmitEventAnnounce_stopFree o ev : stopFree o → stopFree (EmitEventAnnounce o ev).
Proof.
  intros [Hout Hin]. unfold EmitEventAnnounce.
  destruct (decide _) as [|Hlive]; [done|]. split; [|done]. cbn.
  apply Forall_app. split; [done|]. by apply Forall_singleton.
Qed.

Lemma ReceiveEventAnnounce_stopFree o ev :
  stopFree o → stopFree (ReceiveEventAnnounce o ev).
Proof.
  intros [Hout Hin]. unfold ReceiveEventAnnounce.
  destruct (decide _) as [|Hlive]; [done|]. split; [done|]. cbn.
  apply Forall_app. split; [done|]. by apply Forall_singleton.
Qed.

End PumpFacts.

(** ** More on the write path *)

Section WriteMore.

Context {L R C : Type}.
Context `{!storage.LocalStorage L, !storage.RemoteStorage R,
          !cluster.ClusterManager C, !journal.Consts, !journal.Faults}.

Implicit Types (o : objStore L R C) (meta : journal.FileMeta).
Implicit Types (r : list Byte.byte).

Lemma storeLocal_frame o r meta :
  nodeID (storeLocal o r meta).1.1 = nodeID o ∧
  debug (storeLocal o r meta).1.1 = debug o ∧
  state (storeLocal o r meta).1.1 = state o ∧
  remoteStorage (storeLocal o r meta).1.1 = remoteStorage o ∧
  cluster (storeLocal o r meta).1.1 = cluster o ∧
  outboundPump (storeLocal o r meta).1.1 = outboundPump o ∧
  inboundPump (storeLocal o r meta).1.1 = inboundPump o ∧
  localStorage (storeLocal o r meta).1.1
    = (storage.Write (localStorage o) (journal.ID meta) r).1.1 ∧
  (storeLocal o r meta).1.2
    = (storage.Write (localStorage o) (journal.ID meta) r).1.2.
Proof.
  unfold storeLocal.
  destruct (storage.Write _ _ _) as [[ls w] [e|]]; [done|]. cbn.
  destruct (journal.ForEachUpdate _ _ _) as [[ok jm] [e|]]; [done|].
  by destruct ok.
Qed.

Lemma EmitEventAnnounce_added o meta :
  EmitEventAnnounce o (fileEvent cluster.EventFileAdded meta) =
  setOutboundPump (outboundPump o ++ [fileEvent cluster.EventFileAdded meta]) o.
Proof. reflexivity. Qed.

(** How a call of [PutObject] that returns no error went. *)
Lemma PutObject_ok_inv o r meta o' n :
  PutObject o r meta = (o', n, None) →
  ∃ o1 w, storeLocal o r meta = (o1, w, None) ∧
    ((journal.Consistency meta = journal.ConsistencyLocal ∧ n = 0 ∧
      o' = EmitEventAnnounce o1 (fileEvent cluster.EventFileAdded meta)) ∨
     (journal.Consistency meta ≠ journal.ConsistencyLocal ∧
      (journal.Consistency meta = journal.ConsistencyS3
       ∨ journal.Consistency meta = journal.ConsistencyFull) ∧ n = w ∧
      ∃ f rs, storage.Read (localStorage o1) (journal.ID meta) = inl f ∧
              storage.UploadObject (remoteStorage o1) "" (journal.ID meta) f
                = (rs, None) ∧
              o' = setRemoteStorage rs
                     (EmitEventAnnounce o1 (fileEvent cluster.EventFileAdded meta)))).
Proof.
  unfold PutObject. destruct (decide _) as [Hlocal|Hnl].
  - destruct (storeLocal o r meta) as [[o1 w] [e|]]; [discriminate|].
    intros [= <- <-]. exists o1, w. split; [done|]. left. by split_and!.
  - destruct (decide _) as [Hremote|]; [|discriminate].
    destruct (storeLocal o r meta) as [[o1 w] [e|]]; [discriminate|].
    change (localStorage (EmitEventAnnounce o1 (fileEvent cluster.EventFileAdded meta)))
      with (localStorage o1).
    destruct (storage.Read _ _) as [f|eread] eqn:Hread; [|discriminate].
    unfold storeS3.
    change (remoteStorage (EmitEventAnnounce o1 (fileEvent cluster.EventFileAdded meta)))
      with (remoteStorage o1).
    destruct (storage.UploadObject _ _ _ _) as [rs [eup|]] eqn:Hup; [discriminate|].
    intros [= <- <-]. exists o1, w. split; [done|]. right.
    split_and!; [done..|]. by exists f, rs.
Qed.

(** [PutObject] changes neither the state of the store, nor its id, nor
    its cluster manager, and sends nothing into the inbound pump, however
    it ends. *)
Theorem PutObject_frame o r meta :
  state (PutObject o r meta).1.1 = state o ∧
  nodeID (PutObject o r meta).1.1 = nodeID o ∧
  cluster (PutObject o r meta).1.1 = cluster o ∧
  inboundPump (PutObject o r meta).1.1 = inboundPump o.
Proof.
  pose proof (storeLocal_frame o r meta) as (Hn & _ & Hs & _ & Hc & _ & Hi & _).
  unfold PutObject. destruct (decide _) as [Hl|Hnl].
  - destruct (storeLocal o r meta) as [[o1 w] [e|]]; cbn in *; by split_and!.
  - destruct (decide _) as [Hr|Hnr]; [|done].
    destruct (storeLocal o r meta) as [[o1 w] [e|]]; cbn in *; [done|].
    destruct (storage.Read _ _); [|done].
    unfold storeS3. destruct (storage.UploadObject _ _ _ _) as [rs [eup|]]; done.
Qed.

(** A [PutObject] that returns no error has queued one FileAdded announce
    with the meta behind what the outbound pump held. *)
Theorem PutObject_announces o r meta o' n :
  PutObject o r meta = (o', n, None) →
  outboundPump o' = outboundPump o ++ [fileEvent cluster.EventFileAdded meta].
Proof.
  intros (o1 & w & Hstore & Hcase)%PutObject_ok_inv.
  pose proof (storeLocal_frame o r meta) as (_ & _ & _ & _ & _ & Ho & _).
  rewrite Hstore in Ho. cbn in Ho.
  destruct Hcase as [(_ & _ & ->)|(_ & _ & _ & f & rs & _ & _ & ->)];
    rewrite EmitEventAnnounce_added; cbn; by rewrite Ho.
Qed.

(** After a successful [storeLocal] the scan of the journals finds the
    meta first. *)
Lemma storeLocal_first o r meta o1 w :
  storeLocal o r meta = (o1, w, None) →
  firstRecord (journals o1) (journal.ID meta) = Some meta.
Proof.
  intros (_ & _ & Hjm & [j Hown] & _)%storeLocal_ok.
  destruct (firstRecord (journals o1) (journal.ID meta)) as [m|] eqn:Hfirst.
  - apply firstRecord_Some in Hfirst as (jid & j' & Hjid & Hm).
    rewrite Hjm in Hjid. destruct (journals o !! jid) as [j0|]; [|done].
    injection Hjid as <-. unfold putEntry in Hm.
    destruct (decide (nodeID o = jid)).
    + rewrite lookup_insert_eq in Hm. congruence.
    + by rewrite lookup_delete_eq in Hm.
  - exfalso.
    pose proof (proj1 (firstRecord_None _ _) Hfirst (nodeID o)
                  (putEntry (nodeID o) meta (nodeID o) j)) as Hnone.
    rewrite Hjm, Hown in Hnone. specialize (Hnone eq_refl).
    unfold putEntry in Hnone. rewrite decide_True in Hnone by done.
    by rewrite lookup_insert_eq in Hnone.
Qed.

Lemma PutObject_first o r meta o' n :
  PutObject o r meta = (o', n, None) →
  firstRecord (journals o') (journal.ID meta) = Some meta ∧
  localStorage o' = (storage.Write (localStorage o) (journal.ID meta) r).1.1.
Proof.
  intros (o1 & w & Hstore & Hcase)%PutObject_ok_inv.
  pose proof (storeLocal_frame o r meta) as (_ & _ & _ & _ & _ & _ & _ & Hls & _).
  rewrite Hstore in Hls. cbn in Hls.
  apply storeLocal_first in Hstore.
  destruct Hcase as [(_ & _ & ->)|(_ & _ & _ & f & rs & _ & _ & ->)];
    cbn [journals localStorage setRemoteStorage];
    by rewrite EmitEventAnnounce_journals.
Qed.

(** After a [PutObject] that returns no error, [HeadObject] of the id
    returns the meta that was put, whatever the journals held before. *)
Theorem PutObject_then_HeadObject o r meta o' n :
  PutObject o r meta = (o', n, None) →
  HeadObject o' (journal.ID meta) = (Some meta, None).
Proof.
  intros [Hfirst _]%PutObject_first. by rewrite HeadObject_first, Hfirst.
Qed.

(** After a [PutObject] that returns no error, [GetObject] of the id gives
    back the bytes that were put, provided the meta was not put as a
    symlink and the local storage reads back what it has just written. *)
Theorem PutObject_then_GetObject o r meta o' n :
  PutObject o r meta = (o', n, None) →
  journal.IsSymlink meta = false →
  storage.Read (storage.Write (localStorage o) (journal.ID meta) r).1.1
               (journal.ID meta) = inl r →
  GetObject o' (journal.ID meta) = (Some r, Some meta, None).
Proof.
  intros [Hfirst Hls]%PutObject_first Hsym Hread.
  unfold GetObject. by rewrite ForEach_findMeta, Hfirst, Hsym, Hls, Hread.
Qed.

(** A meta put as a symlink cannot be got back from the node it was put
    on: [GetObject] answers not-found, with the meta. *)
Theorem PutObject_symlink_then_GetObject o r meta o' n :
  PutObject o r meta = (o', n, None) →
  journal.IsSymlink meta = true →
  GetObject o' (journal.ID meta) = (None, Some meta, Some ErrNotFound).
Proof.
  intros [Hfirst _]%PutObject_first Hsym.
  unfold GetObject. by rewrite ForEach_findMeta, Hfirst, Hsym.
Qed.

(** A [PutObject] with consistency S3 or FULL that returns no error returns
    the count the local write reported, and has uploaded, under the id and
    with an empty prefix, the bytes read back from the local storage. *)
Theorem PutObject_remote_uploads o r meta o' n :
  journal.Consistency meta = journal.ConsistencyS3
  ∨ journal.Consistency meta = journal.ConsistencyFull →
  PutObject o r meta = (o', n, None) →
  n = (storage.Write (localStorage o) (journal.ID meta) r).1.2 ∧
  ∃ f, storage.Read (storage.Write (localStorage o) (journal.ID meta) r).1.1
                    (journal.ID meta) = inl f ∧
       storage.UploadObject (remoteStorage o) "" (journal.ID meta) f
         = (remoteStorage o', None).
Proof.
  intros Hremote (o1 & w & Hstore & Hcase)%PutObject_ok_inv.
  pose proof (storeLocal_frame o r meta) as (_ & _ & _ & Hrs & _ & _ & _ & Hls & Hw).
  rewrite Hstore in Hrs, Hls, Hw. cbn in Hrs, Hls, Hw.
  pose proof journal.consts_distinct as (Hd1 & Hd2 & _).
  destruct Hcase as [(Hlocal & _)|(_ & _ & -> & f & rs & Hread & Hup & ->)].
  { destruct Hremote; congruence. }
  split; [done|]. exists f. rewrite <- Hls, <- Hrs. by split.
Qed.

(** A [PutObject] with consistency LOCAL, or with a level that is none of
    the three, leaves the remote storage alone, however it ends. *)
Theorem PutObject_local_keeps_remote o r meta :
  journal.Consistency meta ≠ journal.ConsistencyS3 →
  journal.Consistency meta ≠ journal.ConsistencyFull →
  remoteStorage (PutObject o r meta).1.1 = remoteStorage o.
Proof.
  intros Hs Hf.
  pose proof (storeLocal_frame o r meta) as (_ & _ & _ & Hrs & _).
  unfold PutObject. destruct (decide _) as [Hl|Hnl].
  - by destruct (storeLocal o r meta) as [[o1 w] [e|]].
  - by rewrite decide_False by tauto.
Qed.

(** The fault, if any, that the mutator of [storeLocal] meets at the
    journal of [jid]. *)
Lemma storeLocalMutator_err own meta jid j ok :
  (storeLocalMutator own meta jid j ok).2 =
  Errorf <$> (if decide (own = jid) then journal.setFault jid (journal.ID meta)
              else journal.deleteFault jid (journal.ID meta)).
Proof.
  unfold storeLocalMutator, journal.Journal_Set, journal.Journal_Delete.
  destruct (decide (own = jid));
    [destruct (journal.setFault _ _)|destruct (journal.deleteFault _ _)]; done.
Qed.

Lemma forEachUpdateFrom_storeLocal_ok own meta
    (l : list (string * journal.Journal)) ok :
  (journal.forEachUpdateFrom (storeLocalMutator own meta) l ok).2 = None ↔
  ∀ jid j, (jid, j) ∈ l →
    (if decide (own = jid) then journal.setFault jid (journal.ID meta)
     else journal.deleteFault jid (journal.ID meta)) = None.
Proof.
  revert ok. induction l as [|[jid j] l IH]; intros ok; cbn.
  { split; [|done]. intros _ jid j Hin. by apply elem_of_nil in Hin. }
  pose proof (storeLocalMutator_err own meta jid j ok) as Herr.
  destruct (storeLocalMutator own meta jid j ok) as [[ok1 j1] [e|]]; cbn in Herr.
  - destruct (if decide (own = jid) then _ else _) as [msg|] eqn:Hf; [|done].
    injection Herr as ->. cbn. split; [done|].
    intros Hall. specialize (Hall jid j (list_elem_of_here _ _)). congruence.
  - destruct (if decide (own = jid) then _ else _) as [msg|] eqn:Hf; [done|].
    specialize (IH ok1).
    destruct (journal.forEachUpdateFrom _ l ok1) as [[ok2 l2] e2]. cbn in *.
    rewrite IH. split.
    + intros Hall k jk [[= -> ->]|Hin]%elem_of_cons; [done|by apply (Hall k jk)].
    + intros Hall k jk Hin. apply (Hall k jk). by apply list_elem_of_further.
Qed.

(** A [PutObject] with consistency LOCAL returns no error exactly when the
    local write does, the node has a journal of its own, the set of the id
    in it is taken, and so is the delete of the id in every other journal. *)
Theorem PutObject_local_succeeds_iff o r meta :
  journal.Consistency meta = journal.ConsistencyLocal →
  (PutObject o r meta).2 = None ↔
  (storage.Write (localStorage o) (journal.ID meta) r).2 = None ∧
  is_Some (journals o !! nodeID o) ∧
  journal.setFault (nodeID o) (journal.ID meta) = None ∧
  ∀ jid, is_Some (journals o !! jid) → jid ≠ nodeID o →
         journal.deleteFault jid (journal.ID meta) = None.
Proof.
  intros Hlocal. unfold PutObject. rewrite decide_True by done.
  assert ((storeLocal o r meta).2 = None ↔
          (storage.Write (localStorage o) (journal.ID meta) r).2 = None ∧
          is_Some (journals o !! nodeID o) ∧
          (∀ jid j, (jid, j) ∈ map_to_list (journals o) →
             (if decide (nodeID o = jid) then journal.setFault jid (journal.ID meta)
              else journal.deleteFault jid (journal.ID meta)) = None)) as Hstore.
  { unfold storeLocal.
    destruct (storage.Write _ _ _) as [[ls w] [e|]]; cbn;
      [split; [done|by intros [? _]]|].
    pose proof (forEachUpdateFrom_storeLocal_ok (nodeID o) meta
                  (map_to_list (journals o)) false) as Hiff.
    destruct (journal.ForEachUpdate _ _ _) as [[ok jm] e] eqn:Hupd.
    unfold journal.ForEachUpdate, journal.iteration in Hupd.
    destruct (journal.forEachUpdateFrom _ _ _) as [[ok1 l1] [e1|]] eqn:Hpass.
    - injection Hupd as <- <- <-. cbn in *. split; [done|].
      intros (_ & _ & Hall). apply Hiff in Hall. done.
    - injection Hupd as <- <- <-. cbn in Hiff.
      apply forEachUpdateFrom_storeLocal in Hpass as [_ ->]. cbn.
      assert (bool_decide (nodeID o ∈ (map_to_list (journals o)).*1)
              = bool_decide (is_Some (journals o !! nodeID o))) as ->.
      { apply bool_decide_ext. rewrite list_elem_of_fmap. split.
        - intros ([k j] & -> & Hin). apply elem_of_map_to_list in Hin. by eexists.
        - intros [j Hj]. exists (nodeID o, j). split; [done|].
          by apply elem_of_map_to_list. }
      case_bool_decide as Hown; cbn.
      + split; [|done]. intros _. split_and!; [done..|]. by apply Hiff.
      + split; [done|]. by intros (_ & ? & _). }
  assert ((let '(o0, written, err) := storeLocal o r meta in
           match err with
           | Some err0 => (o0, written, Some (Wrapf "objstore: local store failed" err0))
           | None => (EmitEventAnnounce o0 (fileEvent cluster.EventFileAdded meta), 0, None)
           end).2 = None ↔ (storeLocal o r meta).2 = None) as ->.
  { by destruct (storeLocal o r meta) as [[o1 w] [e|]]. }
  rewrite Hstore. split.
  - intros (Hw & [j Hown] & Hall). split_and!; [done|by eexists| |].
    + specialize (Hall (nodeID o) j). rewrite decide_True in Hall by done.
      apply Hall. by apply elem_of_map_to_list.
    + intros jid [j' Hj'] Hne. specialize (Hall jid j').
      rewrite decide_False in Hall by done. apply Hall. by apply elem_of_map_to_list.
  - intros (Hw & Hown & Hset & Hdel). split_and!; [done..|].
    intros jid j Hin%elem_of_map_to_list. destruct (decide (nodeID o = jid)) as [<-|Hne].
    + done.
    + apply Hdel; [by eexists|done].
Qed.

(** When the local write fails, a [PutObject] with one of the three
    consistency levels returns the count and the error of the write,
    wrapped, and has touched nothing but the local storage. *)
Theorem PutObject_write_fails o r meta ls w e :
  journal.Consistency meta = journal.ConsistencyLocal
  ∨ journal.Consistency meta = journal.ConsistencyS3
  ∨ journal.Consistency meta = journal.ConsistencyFull →
  storage.Write (localStorage o) (journal.ID meta) r = (ls, w, Some e) →
  PutObject o r meta
  = (setLocalStorage ls o, w, Some (Wrapf "objstore: local store failed" e)).
Proof.
  intros Hkind Hwrite.
  assert (storeLocal o r meta = (setLocalStorage ls o, w, Some e)) as Hstore.
  { unfold storeLocal. by rewrite Hwrite. }
  unfold PutObject. destruct (decide _) as [Hl|Hnl]; [by rewrite Hstore|].
  rewrite decide_True by tauto. by rewrite Hstore.
Qed.


(** Every error of [PutObject] carries one of four messages: unknown
    consistency, or a wrapped cause of a failed local store, of a local
    file missing before the upload, or of a failed upload. *)
Theorem PutObject_errors o r meta o' n e :
  PutObject o r meta = (o', n, Some e) →
  e = Errorf "objstore: unknown consistency" ∨
  ∃ cause, e = Wrapf "objstore: local store failed" cause ∨
           e = Wrapf "objstore: local store missing file" cause ∨
           e = Wrapf "objstore: remote store failed" cause.
Proof.
  unfold PutObject. destruct (decide _) as [Hl|Hnl].
  { destruct (storeLocal o r meta) as [[o1 w] [e1|]]; intros [= <- <- <-].
    right. by eauto. }
  destruct (decide _) as [Hr|Hnr]; [|intros [= <- <- <-]; by left].
  destruct (storeLocal o r meta) as [[o1 w] [e1|]]; [intros [= <- <- <-]; by eauto|].
  destruct (storage.Read _ _) as [f|eread]; [|intros [= <- <- <-]; by eauto].
  unfold storeS3. destruct (storage.UploadObject _ _ _ _) as [rs [eup|]];
    intros [= <- <- <-]. by eauto 6.
Qed.

End WriteMore.

Lemma PutObject_announces_witness :
  (PutObject soloStore hello helloMeta).2 = None ∧
  outboundPump (PutObject soloStore hello helloMeta).1.1
    = [fileEvent cluster.EventFileAdded helloMeta].
Proof.
  assert (PutObject soloStore hello helloMeta
          = ((PutObject soloStore hello helloMeta).1.1,
             (PutObject soloStore hello helloMeta).1.2, None)) as H1
    by (vm_compute; reflexivity).
  split; [vm_compute; reflexivity|].
  exact (PutObject_announces soloStore hello helloMeta _ _ H1).
Defined.

Lemma PutObject_then_HeadObject_witness :
  (PutObject soloStore hello helloMeta).2 = None ∧
  HeadObject (PutObject soloStore hello helloMeta).1.1 "a" = (Some helloMeta, None).
Proof.
  assert (PutObject soloStore hello helloMeta
          = ((PutObject soloStore hello helloMeta).1.1,
             (PutObject soloStore hello helloMeta).1.2, None)) as H1
    by (vm_compute; reflexivity).
  split; [vm_compute; reflexivity|].
  exact (PutObject_then_HeadObject soloStore hello helloMeta _ _ H1).
Defined.

Lemma PutObject_then_GetObject_witness :
  (PutObject soloStore hello helloMeta).2 = None ∧
  journal.IsSymlink helloMeta = false ∧
  GetObject (PutObject soloStore hello helloMeta).1.1 "a"
    = (Some hello, Some helloMeta, None).
Proof.
  assert (PutObject soloStore hello helloMeta
          = ((PutObject soloStore hello helloMeta).1.1,
             (PutObject soloStore hello helloMeta).1.2, None)) as H1
    by (vm_compute; reflexivity).
  assert (journal.IsSymlink helloMeta = false) as H2 by reflexivity.
  assert (storage.Read
            (storage.Write (localStorage soloStore) (journal.ID helloMeta) hello).1.1
            (journal.ID helloMeta) = inl hello) as H3 by (vm_compute; reflexivity).
  split_and!; [vm_compute; reflexivity|exact H2|].
  exact (PutObject_then_GetObject soloStore hello helloMeta _ _ H1 H2 H3).
Defined.

Lemma PutObject_symlink_then_GetObject_witness :
  (PutObject soloStore hello linkMeta).2 = None ∧
  journal.IsSymlink linkMeta = true ∧
  GetObject (PutObject soloStore hello linkMeta).1.1 "a"
    = (None, Some linkMeta, Some ErrNotFound).
Proof.
  assert (PutObject soloStore hello linkMeta
          = ((PutObject soloStore hello linkMeta).1.1,
             (PutObject soloStore hello linkMeta).1.2, None)) as H1
    by (vm_compute; reflexivity).
  assert (journal.IsSymlink linkMeta = true) as H2 by reflexivity.
  split_and!; [vm_compute; reflexivity|exact H2|].
  exact (PutObject_symlink_then_GetObject soloStore hello linkMeta _ _ H1 H2).
Defined.

Lemma PutObject_remote_uploads_witness :
  (journal.Consistency remoteMeta = journal.ConsistencyS3
   ∨ journal.Consistency remoteMeta = journal.ConsistencyFull) ∧
  (PutObject soloStore hello remoteMeta).2 = None ∧
  (PutObject soloStore hello remoteMeta).1.2 = 5 ∧
  remoteStorage (PutObject soloStore hello remoteMeta).1.1 !! "a" = Some hello.
Proof.
  assert (journal.Consistency remoteMeta = journal.ConsistencyS3
          ∨ journal.Consistency remoteMeta = journal.ConsistencyFull) as H1
    by (left; reflexivity).
  assert (PutObject soloStore hello remoteMeta
          = ((PutObject soloStore hello remoteMeta).1.1,
             (PutObject soloStore hello remoteMeta).1.2, None)) as H2
    by (vm_compute; reflexivity).
  destruct (PutObject_remote_uploads soloStore hello remoteMeta _ _ H1 H2)
    as (Hn & f & Hread & Hup).
  split_and!; [exact H1|vm_compute; reflexivity| |].
  - rewrite Hn. vm_compute. reflexivity.
  - assert (storage.Read
              (storage.Write (localStorage soloStore) (journal.ID remoteMeta) hello).1.1
              (journal.ID remoteMeta) = inl hello) as Hread'
      by (vm_compute; reflexivity).
    rewrite Hread' in Hread. injection Hread as <-.
    apply (f_equal fst) in Hup. cbn [fst] in Hup. rewrite <- Hup.
    vm_compute. reflexivity.
Defined.

Lemma PutObject_local_succeeds_iff_witness :
  journal.Consistency helloMeta = journal.ConsistencyLocal ∧
  (PutObject soloStore hello helloMeta).2 = None.
Proof.
  assert (journal.Consistency helloMeta = journal.ConsistencyLocal) as H1
    by reflexivity.
  split; [exact H1|].
  apply (PutObject_local_succeeds_iff soloStore hello helloMeta H1).
  split_and!; [reflexivity|vm_compute; by eexists|reflexivity|reflexivity].
Defined.

Lemma PutObject_write_fails_witness :
  storage.Write (localStorage fullDiskStore) (journal.ID helloMeta) hello
    = (tt, 0, Some (Errorf "no space left on device")) ∧
  PutObject fullDiskStore hello helloMeta
    = (fullDiskStore, 0,
       Some (Wrapf "objstore: local store failed" (Errorf "no space left on device"))).
Proof.
  assert (storage.Write (localStorage fullDiskStore) (journal.ID helloMeta) hello
          = (tt, 0, Some (Errorf "no space left on device"))) as H1 by reflexivity.
  split; [exact H1|].
  apply (PutObject_write_fails fullDiskStore hello helloMeta tt 0 _); [|exact H1].
  left. reflexivity.
Defined.


Lemma PutObject_errors_witness :
  (PutObject soloStore hello oddMeta).2
    = Some (Errorf "objstore: unknown consistency") ∧
  ((Errorf "objstore: unknown consistency" = Errorf "objstore: unknown consistency") ∨
   ∃ cause, Errorf "objstore: unknown consistency"
              = Wrapf "objstore: local store failed" cause ∨
            Errorf "objstore: unknown consistency"
              = Wrapf "objstore: local store missing file" cause ∨
            Errorf "objstore: unknown consistency"
              = Wrapf "objstore: remote store failed" cause).
Proof.
  assert (PutObject soloStore hello oddMeta
          = (soloStore, 0, Some (Errorf "objstore: unknown consistency"))) as H1
    by (vm_compute; reflexivity).
  split; [vm_compute; reflexivity|].
  exact (PutObject_errors soloStore hello oddMeta _ _ _ H1).
Defined.

(** ** The read path, [FindObject], [NewStore] and [Close] *)

Section EntryFacts.

Context {L R C : Type}.
Context `{!storage.LocalStorage L, !storage.RemoteStorage R,
          !cluster.ClusterManager C, !journal.Consts, !journal.Faults,
          !ClusterObjects C, !LocalAccess L, !RemoteAccess R}.

Implicit Types (o : objStore L R C) (meta : journal.FileMeta) (id : string).


(** When one journal alone holds the id, [HeadObject] returns its record,
    in whatever order the journals are scanned. *)
Theorem HeadObject_single_holder o id k j m :
  (∀ jid j', journals o !! jid = Some j' → is_Some (j' !! id) → jid = k) →
  journals o !! k = Some j →
  j !! id = Some m →
  HeadObject o id = (Some m, None).
Proof.
  intros Hone Hk Hm. rewrite HeadObject_first. f_equal.
  destruct (firstRecord (journals o) id) as [m'|] eqn:Hfirst.
  - apply firstRecord_Some in Hfirst as (jid & j' & Hj' & Hm').
    assert (jid = k) as -> by (apply (Hone jid j'); [done|by eexists]).
    congruence.
  - pose proof (proj1 (firstRecord_None _ _) Hfirst k j Hk). congruence.
Qed.


Lemma GetObject_stream_ok o id s m e :
  GetObject o id = (s, m, e) → (is_Some s ↔ e = None).
Proof.
  unfold GetObject. rewrite ForEach_findMeta.
  destruct (firstRecord (journals o) id) as [meta|];
    [destruct (journal.IsSymlink meta);
       [|destruct (storage.Read (localStorage o) id)]|];
    intros [= <- <- <-]; (split; [by intros [? ?] || done|done || by eexists]).
Qed.

(** An id that no journal of the node holds is not found, and no peer is
    asked: whatever the peers hold, [FindObject] answers not-found. *)
Theorem FindObject_unknown_id o id :
  (∀ jid j, journals o !! jid = Some j → j !! id = None) →
  FindObject o id = (None, None, Some ErrNotFound).
Proof.
  intros Hnone%firstRecord_None. unfold FindObject, GetObject.
  by rewrite ForEach_findMeta, Hnone.
Qed.

Lemma omap_askPeer_nonempty o id nodes :
  omap (askPeer o id) nodes ≠ [] ↔
  ∃ node r, node ∈ nodes ∧ cluster.ID node ≠ nodeID o ∧
            cluster_GetObject (cluster o) (cluster.ID node) id = inl r.
Proof.
  split.
  - intros Hne. destruct (omap (askPeer o id) nodes) as [|r rs] eqn:Hom; [done|].
    assert (r ∈ omap (askPeer o id) nodes) as Hin by (rewrite Hom; apply list_elem_of_here).
    apply list_elem_of_omap in Hin as (node & Hnode & Hask).
    unfold askPeer in Hask. destruct (decide _) as [|Hpeer]; [done|].
    destruct (cluster_GetObject _ _ _) as [r'|] eqn:Hget; [|done].
    by exists node, r'.
  - intros (node & r & Hnode & Hpeer & Hget) Hnil.
    assert (r ∈ omap (askPeer o id) nodes) as Hin.
    { apply list_elem_of_omap. exists node. split; [done|].
      unfold askPeer. by rewrite decide_False, Hget by done. }
    rewrite Hnil in Hin. by apply elem_of_nil in Hin.
Qed.

(** [FindObject] returns a stream exactly when [GetObject] does, or when
    the node holds a record for the id, two nodes or more are listed, and
    some peer other than the node gives a stream for the id. *)
Theorem FindObject_stream_iff o id :
  is_Some (FindObject o id).1.1 ↔
  is_Some (GetObject o id).1.1 ∨
  (is_Some (GetObject o id).1.2 ∧
   ∃ nodes, cluster.ListNodes (cluster o) = inl nodes ∧ (2 ≤ length nodes)%nat ∧
     ∃ node r, node ∈ nodes ∧ cluster.ID node ≠ nodeID o ∧
               cluster_GetObject (cluster o) (cluster.ID node) id = inl r).
Proof.
  unfold FindObject.
  destruct (GetObject o id) as [[s m] e] eqn:Hget.
  apply GetObject_stream_ok in Hget as Hs. cbn [fst snd].
  destruct e as [e|].
  2:{ cbn. split; [by left|]. intros _. by apply Hs. }
  assert (¬ is_Some s) as Hnos by (rewrite Hs; done).
  destruct m as [meta|].
  2:{ cbn. split; [by intros [? ?]|]. intros [?|[[? ?] _]]; done. }
  destruct (cluster.ListNodes (cluster o)) as [nodes|err].
  2:{ cbn. split; [by intros [? ?]|]. intros [?|(_ & ns & [=] & _)]. done. }
  destruct (length nodes <? 2)%nat eqn:Hlen.
  { apply Nat.ltb_lt in Hlen. cbn. split; [by intros [? ?]|].
    intros [?|(_ & ns & [= <-] & Hge & _)]; [done|lia]. }
  apply Nat.ltb_ge in Hlen.
  pose proof (omap_askPeer_nonempty o id nodes) as Hpeers.
  destruct (omap (askPeer o id) nodes) as [|r rs]; cbn.
  - split; [by intros [? ?]|].
    intros [?|(_ & ns & [= <-] & _ & Hex)]; [done|]. by apply Hpeers in Hex.
  - split; [|by eexists]. intros _. right. split; [by eexists|].
    exists nodes. split_and!; [done..|]. by apply Hpeers.
Qed.

(** A stream from [FindObject] comes without error; it is the local one,
    or one that a peer other than the node gives for the id, and then the
    meta beside it is the node's own record. *)
Theorem FindObject_stream o id r m e :
  FindObject o id = (Some r, m, e) →
  e = None ∧
  (GetObject o id = (Some r, m, None) ∨
   (m = (HeadObject o id).1 ∧
    ∃ nodes node, cluster.ListNodes (cluster o) = inl nodes ∧ node ∈ nodes ∧
      cluster.ID node ≠ nodeID o ∧
      cluster_GetObject (cluster o) (cluster.ID node) id = inl r)).
Proof.
  unfold FindObject.
  destruct (GetObject o id) as [[s m0] e0] eqn:Hget.
  destruct e0 as [e0|]; [|intros [= -> <- <-]; by split; [|left]].
  destruct m0 as [meta|]; [|intros [=]].
  assert ((HeadObject o id).1 = Some meta) as Hhead.
  { rewrite HeadObject_first. cbn. unfold GetObject in Hget.
    rewrite ForEach_findMeta in Hget.
    destruct (firstRecord (journals o) id) as [meta'|]; [|congruence].
    destruct (journal.IsSymlink meta'); [congruence|].
    destruct (storage.Read _ _); congruence. }
  destruct (cluster.ListNodes (cluster o)) as [nodes|err]; [|intros [=]].
  destruct (length nodes <? 2)%nat; [intros [=]|].
  destruct (omap (askPeer o id) nodes) as [|r' rs] eqn:Hom; intros [= <- <- <-].
  split; [done|]. right. split; [done|].
  assert (r' ∈ omap (askPeer o id) nodes) as Hin by (rewrite Hom; apply list_elem_of_here).
  apply list_elem_of_omap in Hin as (node & Hnode & Hask).
  unfold askPeer in Hask. destruct (decide _) as [|Hpeer]; [done|].
  destruct (cluster_GetObject _ _ _) as [r''|] eqn:Hg; [|done].
  injection Hask as ->. by exists nodes, node.
Qed.



Lemma PutObject_outbound o r meta :
  outboundPump (PutObject o r meta).1.1 = outboundPump o ∨
  outboundPump (PutObject o r meta).1.1
    = outboundPump o ++ [fileEvent cluster.EventFileAdded meta].
Proof.
  pose proof (storeLocal_frame o r meta) as (_ & _ & _ & _ & _ & Ho & _).
  unfold PutObject. destruct (decide _) as [Hl|Hnl].
  - destruct (storeLocal o r meta) as [[o1 w] [e|]]; cbn [fst snd] in *; [by left|].
    right. rewrite EmitEventAnnounce_added. cbn. by rewrite Ho.
  - destruct (decide _) as [Hr|Hnr]; [|by left].
    destruct (storeLocal o r meta) as [[o1 w] [e|]]; cbn [fst snd] in *; [by left|].
    right. rewrite EmitEventAnnounce_added.
    destruct (storage.Read _ _); [|cbn; by rewrite Ho].
    unfold storeS3. destruct (storage.UploadObject _ _ _ _) as [rs [eup|]];
      cbn; by rewrite Ho.
Qed.

(** The public entry points never queue a stop announce: pumps free of
    stops stay so under [EmitEventAnnounce], [ReceiveEventAnnounce],
    [PutObject] and [sync].  [Close] is what queues one, last in each
    pump. *)
Theorem stop_only_by_Close o :
  stopFree o →
  (∀ ev, stopFree (EmitEventAnnounce o ev)) ∧
  (∀ ev, stopFree (ReceiveEventAnnounce o ev)) ∧
  (∀ r meta, stopFree (PutObject o r meta).1.1) ∧
  (∀ synced o1, sync o = SyncReturn synced o1 → stopFree o1) ∧
  last (outboundPump (Close o).1) = Some stopEvent ∧
  last (inboundPump (Close o).1) = Some stopEvent ∧
  ¬ stopFree (Close o).1.
Proof.
  intros Hfree. split_and!.
  - intros ev. by apply EmitEventAnnounce_stopFree.
  - intros ev. by apply ReceiveEventAnnounce_stopFree.
  - intros r meta. destruct Hfree as [Hout Hin]. split.
    + destruct (PutObject_outbound o r meta) as [-> | ->]; [done|].
      apply Forall_app. split; [done|]. by apply Forall_singleton.
    + by destruct (PutObject_frame o r meta) as (_ & _ & _ & ->).
  - intros synced o1 Hsync. destruct Hfree as [Hout Hin].
    destruct (cluster.ListNodes (cluster o)) as [nodes|err] eqn:Hnodes.
    2:{ unfold sync in Hsync. by rewrite Hnodes in Hsync. }
    destruct (decide (length nodes < 2)%nat) as [Hlt|Hge].
    { rewrite (sync_alone o nodes Hnodes Hlt) in Hsync. by injection Hsync as <- <-. }
    pose proof (sync_round o nodes Hnodes ltac:(lia)) as Hround.
    destruct (journals o !! nodeID o) as [j|] eqn:Hown; [|congruence].
    rewrite (sync_round_closed o nodes j Hnodes ltac:(lia) Hown) in Hsync.
    injection Hsync as <- <-. split; cbn; apply Forall_app; (split; [done|]).
    + apply Forall_fmap, Forall_true. intros meta. unfold compose, deletedEvent.
      destruct (journal.IsDeleted meta); cbn; discriminate.
    + apply Forall_forall. intros ev (meta & _ & Hrep)%list_elem_of_omap.
      unfold replicated in Hrep. destruct (journal.IsDeleted meta); [done|].
      destruct (decide _); [done|]. destruct (decide _); [|done].
      by injection Hrep as <-.
  - cbn. apply last_snoc.
  - cbn. apply last_snoc.
  - intros [Hout _]. cbn in Hout. apply Forall_app in Hout as [_ Hstop].
    apply Forall_inv in Hstop. by apply Hstop.
Qed.

End EntryFacts.

Lemma HeadObject_single_holder_witness :
  journals linkedStore !! "n1"
    = Some {["b" := journal.setIsSymlink true (metaAt "b" 100)]} ∧
  HeadObject linkedStore "b"
    = (Some (journal.setIsSymlink true (metaAt "b" 100)), None).
Proof.
  assert (journals linkedStore !! "n1"
          = Some {["b" := journal.setIsSymlink true (metaAt "b" 100)]}) as H1
    by (vm_compute; reflexivity).
  split; [exact H1|].
  apply (HeadObject_single_holder linkedStore "b" "n1" _ _ ltac:(
    intros jid j' Hj _; unfold linkedStore in Hj; cbn [journals] in Hj;
    apply lookup_singleton_Some in Hj as [<- _]; reflexivity) H1).
  vm_compute. reflexivity.
Defined.


Lemma FindObject_unknown_id_witness :
  cluster_GetObject (cluster linkedStore) "n2" "q" = inl hello ∧
  FindObject linkedStore "q" = (None, None, Some ErrNotFound).
Proof.
  split; [vm_compute; reflexivity|].
  apply (FindObject_unknown_id linkedStore "q").
  intros jid j Hj. unfold linkedStore in Hj. cbn [journals] in Hj.
  apply lookup_singleton_Some in Hj as [_ <-].
  vm_compute. reflexivity.
Defined.

Lemma FindObject_stream_witness :
  FindObject linkedStore "b"
    = (Some hello, Some (journal.setIsSymlink true (metaAt "b" 100)), None) ∧
  GetObject linkedStore "b"
    = (None, Some (journal.setIsSymlink true (metaAt "b" 100)), Some ErrNotFound).
Proof.
  assert (FindObject linkedStore "b"
          = (Some hello, Some (journal.setIsSymlink true (metaAt "b" 100)), None))
    as H1 by (vm_compute; reflexivity).
  destruct (FindObject_stream linkedStore "b" _ _ _ H1) as [_ Hfrom].
  split; [exact H1|vm_compute; reflexivity].
Defined.


Lemma stop_only_by_Close_witness :
  stopFree soloStore ∧
  stopFree (PutObject soloStore hello helloMeta).1.1 ∧
  ¬ stopFree (Close soloStore).1.
Proof.
  assert (stopFree soloStore) as H1 by (split; apply Forall_nil_2).
  destruct (stop_only_by_Close soloStore H1) as (_ & _ & Hput & _ & _ & _ & Hclose).
  split_and!; [exact H1|exact (Hput hello helloMeta)|exact Hclose].
Defined.

(** ** More on remote.go *)

Section RemoteFacts.

Implicit Types (s : storage.s3Storage) (prefix key : string).
Implicit Types (startAfter version : list string).
Implicit Types (script : list (storage.ListObjectsV2Output + error)).

(** An error of [GetObject] is [ErrNotFound] exactly when the SDK's error
    text starts with "NoSuchKey", and its own text then starts so too; any
    other error of the SDK comes back as it is. *)
Theorem remote_GetObject_errors s cli key version e :
  remote.GetObject s cli key version = inr e →
  ∃ text, remote.cli_GetObject cli (remote.getInput s key version) = inr text ∧
    (e = remote.ErrNotFound ↔ remote.HasPrefix text "NoSuchKey" = true) ∧
    (remote.HasPrefix text "NoSuchKey" = false → e = remote.FromSDK text) ∧
    remote.HasPrefix (remote.errorText e) "NoSuchKey"
      = remote.HasPrefix text "NoSuchKey".
Proof.
  unfold remote.GetObject.
  destruct (remote.cli_GetObject cli _) as [obj|text]; [done|].
  destruct (remote.HasPrefix text "NoSuchKey") eqn:Hp; intros [= <-];
    exists text; rewrite Hp; split_and!; done.
Qed.

(** The requests of [ListObjects], whatever the provider answers: there is
    at least one and at most one more than there are answers; the first
    carries no token; all ask for at most 100 keys of the same bucket and
    prefix, after the first of the [startAfter] arguments. *)
Lemma listLoop_requests s prefix startAfter token specs script :
  let reqs := (storage.listLoop s prefix startAfter token specs script).1 in
  head reqs = Some (storage.listInput s prefix startAfter token) ∧
  (length reqs ≤ S (length script))%nat ∧
  Forall (λ i, storage.in_MaxKeys i = Some 100 ∧
               storage.in_Bucket i = Some (storage.bucket s) ∧
               storage.in_Prefix i = Some prefix ∧
               storage.in_StartAfter i = head startAfter) reqs.
Proof.
  assert (∀ t, storage.in_MaxKeys (storage.listInput s prefix startAfter t) = Some 100 ∧
               storage.in_Bucket (storage.listInput s prefix startAfter t)
                 = Some (storage.bucket s) ∧
               storage.in_Prefix (storage.listInput s prefix startAfter t) = Some prefix ∧
               storage.in_StartAfter (storage.listInput s prefix startAfter t)
                 = head startAfter) as Hshape.
  { intros t. by split_and!. }
  revert token specs. induction script as [|[page|err] script IH]; intros token specs; cbn.
  - split_and!; [done|lia|]. by apply Forall_singleton.
  - destruct (storage.IsTruncated page) as [[]|]; cbn;
      try (split_and!; [done|lia|by apply Forall_singleton]).
    destruct (storage.ContinuationToken page) as [t|]; cbn;
      try (split_and!; [done|lia|by apply Forall_singleton]).
    specialize (IH (Some t) (specs ++ map (storage.specOf s) (storage.Contents page))).
    destruct (storage.listLoop _ _ _ _ _ script) as [reqs res]. cbn in *.
    destruct IH as (_ & Hlen & Hall). split_and!; [done|lia|].
    by apply Forall_cons.
  - split_and!; [done|lia|]. by apply Forall_singleton.
Qed.

Theorem ListObjects_requests s prefix startAfter script :
  head (storage.ListObjects s prefix startAfter script).1
    = Some (storage.listInput s prefix startAfter None) ∧
  (1 ≤ length (storage.ListObjects s prefix startAfter script).1
     ≤ S (length script))%nat ∧
  Forall (λ i, storage.in_MaxKeys i = Some 100 ∧
               storage.in_Bucket i = Some (storage.bucket s) ∧
               storage.in_Prefix i = Some prefix ∧
               storage.in_StartAfter i = head startAfter)
         (storage.ListObjects s prefix startAfter script).1.
Proof.
  unfold storage.ListObjects.
  destruct (listLoop_requests s prefix startAfter None [] script) as (Hhead & Hlen & Hall).
  split_and!; [done| |done|done].
  destruct (storage.listLoop _ _ _ _ _ _).1; [done|cbn; lia].
Qed.

(** [ListObjects] is left waiting for the provider exactly when every
    answer so far was a truncated page with a continuation token: then, and
    only then, it has neither returned, nor failed, nor panicked. *)
Theorem ListObjects_pending_iff s prefix startAfter script :
  (storage.ListObjects s prefix startAfter script).2 = storage.Pending ↔
  ∃ pages, script = inl <$> pages ∧ Forall goesOn pages.
Proof.
  unfold storage.ListObjects. generalize (@None string) (@nil storage.Spec).
  induction script as [|[page|err] script IH]; intros token specs; cbn.
  - split; [|done]. intros _. by exists [].
  - destruct (storage.IsTruncated page) as [[]|] eqn:Ht; cbn.
    + destruct (storage.ContinuationToken page) as [t|] eqn:Hc; cbn.
      * specialize (IH (Some t) (specs ++ map (storage.specOf s) (storage.Contents page))).
        destruct (storage.listLoop _ _ _ _ _ script) as [reqs res]. cbn in *.
        rewrite IH. split.
        -- intros (pages & -> & Hall). exists (page :: pages). split; [done|].
           apply Forall_cons. split; [|done]. split; [done|by eexists].
        -- intros ([|p pages] & [=] & Hall). subst.
           apply Forall_cons in Hall as [_ Hall]. by exists pages.
      * split; [done|]. intros ([|p pages] & [=] & Hall). subst.
        apply Forall_cons in Hall as [[_ [? ?]] _]. congruence.
    + split; [done|]. intros ([|p pages] & [=] & Hall). subst.
      apply Forall_cons in Hall as [[? _] _]. congruence.
    + split; [done|]. intros ([|p pages] & [=] & Hall). subst.
      apply Forall_cons in Hall as [[? _] _]. congruence.
  - split; [done|]. intros ([|p pages] & [=] & _).
Qed.

(** A page whose [IsTruncated] is nil, coming after pages that go on,
    makes [ListObjects] panic. *)
Theorem ListObjects_nil_IsTruncated s prefix startAfter pages p script :
  Forall goesOn pages →
  storage.IsTruncated p = None →
  storage.ListObjects s prefix startAfter ((inl <$> pages) ++ inl p :: script)
  = (requestsFor s prefix startAfter None pages, storage.Panicked).
Proof.
  intros Hall Hnil. unfold storage.ListObjects.
  rewrite (listLoop_goesOn s prefix startAfter pages None [] _ Hall).
  cbn [storage.listLoop]. rewrite Hnil.
  by rewrite (requests_split (storage.listInput s prefix startAfter) None
                (map storage.ContinuationToken pages)).
Qed.

Lemma listLoop_listed s prefix startAfter token specs script reqs out :
  storage.listLoop s prefix startAfter token specs script = (reqs, storage.Returned out) →
  Forall (listed s) specs → Forall (listed s) out.
Proof.
  revert token specs reqs.
  induction script as [|[page|err] script IH]; intros token specs reqs; cbn; [done| |done].
  assert (Forall (listed s) specs →
          Forall (listed s) (specs ++ map (storage.specOf s) (storage.Contents page)))
    as Hstep.
  { intros Hspecs. apply Forall_app. split; [done|].
    apply Forall_fmap, Forall_true. intros obj. by split_and!. }
  destruct (storage.IsTruncated page) as [[]|]; [| |done].
  - destruct (storage.ContinuationToken page) as [t|].
    + destruct (storage.listLoop _ _ _ (Some t) _ script) as [reqs' res] eqn:Hloop.
      intros [= <- ->] Hspecs. by apply (IH _ _ _ Hloop), Hstep.
    + intros [= <- <-]. apply Hstep.
  - intros [= <- <-]. apply Hstep.
Qed.

(** Every spec of a listing that [ListObjects] returns has the path of its
    key in the bucket, and neither body, nor version, nor metadata. *)
Theorem ListObjects_listed s prefix startAfter script reqs out :
  storage.ListObjects s prefix startAfter script = (reqs, storage.Returned out) →
  Forall (listed s) out.
Proof.
  intros Hlist. by apply (listLoop_listed _ _ _ _ _ _ _ _ Hlist).
Qed.

End RemoteFacts.

Lemma remote_GetObject_errors_witness :
  remote.GetObject bucketB emptyBucket "k" [] = inr remote.ErrNotFound ∧
  remote.HeadObject bucketB emptyBucket "k" []
    = inr (remote.FromSDK "NotFound: Not Found").
Proof.
  assert (remote.GetObject bucketB emptyBucket "k" [] = inr remote.ErrNotFound) as H1
    by (vm_compute; reflexivity).
  destruct (remote_GetObject_errors bucketB emptyBucket "k" [] _ H1) as (text & _).
  split; [exact H1|reflexivity].
Defined.

Lemma ListObjects_nil_IsTruncated_witness :
  Forall goesOn [pageOneToken] ∧
  storage.IsTruncated pageBare = None ∧
  (storage.ListObjects bucketB "" [] [inl pageOneToken; inl pageBare; inl pageTwo]).2
    = storage.Panicked.
Proof.
  assert (Forall goesOn [pageOneToken]) as H1.
  { apply Forall_cons. split; [|apply Forall_nil_2].
    split; [reflexivity|by eexists]. }
  assert (storage.IsTruncated pageBare = None) as H2 by reflexivity.
  split_and!; [exact H1|exact H2|].
  exact (f_equal snd
           (ListObjects_nil_IsTruncated bucketB "" [] [pageOneToken] pageBare
              [inl pageTwo] H1 H2)).
Defined.

Lemma ListObjects_listed_witness :
  storage.ListObjects bucketB "" [] [inl pageOneToken; inl pageTwo]
    = ([storage.listInput bucketB "" [] None;
        storage.listInput bucketB "" [] (Some "t1")],
       storage.Returned [storage.specOf bucketB (objKey "k1");
                         storage.specOf bucketB (objKey "k2")]) ∧
  Forall (listed bucketB) [storage.specOf bucketB (objKey "k1");
                           storage.specOf bucketB (objKey "k2")].
Proof.
  assert (storage.ListObjects bucketB "" [] [inl pageOneToken; inl pageTwo]
    = ([storage.listInput bucketB "" [] None;
        storage.listInput bucketB "" [] (Some "t1")],
       storage.Returned [storage.specOf bucketB (objKey "k1");
                         storage.specOf bucketB (objKey "k2")])) as H1
    by reflexivity.
  split; [exact H1|]. exact (ListObjects_listed bucketB "" [] _ _ _ H1).
Defined.
